(** * JFS, the CXX fuzzing backend: sort conformance check and solver orchestration

    A shallow embedding of
    - [lib/FuzzingCommon/SortConformanceCheckPass.cpp]
      ([SortConformanceCheckPass::run]), and
    - [lib/CXXFuzzingBackend/CXXFuzzingSolver.cpp]
      ([CXXFuzzingSolverImpl::cancel], [sortsAreSupported], [fuzz]),
    followed by the properties of the backend that are stated about them.

    Conventions.
    - C++ member functions that mutate their object take the object and
      return the new one (explicit state passing).
    - [nullptr] results are [None].
    - Effects on the outside world (diagnostic streams, calls of the Clang and
      LibFuzzer invocation managers, [cancel()] calls on passes) are recorded
      in lists kept in the state, oldest entry first.
    - What the external collaborators answer is read from a [World] record,
      which also says at which points another thread calls [cancel()]. *)

From stdpp Require Import base decidable countable gmap sets list strings pretty.
From Stdlib Require Import ZArith Lia.

Set Default Proof Using "Type".
Local Open Scope string_scope.

(** ** Z3 sorts *)

(** [Z3_sort_kind] of the Z3 C API, the value of [Z3SortHandle::getKind()]. *)
Inductive Z3_sort_kind :=
| Z3_UNINTERPRETED_SORT
| Z3_BOOL_SORT
| Z3_INT_SORT
| Z3_REAL_SORT
| Z3_BV_SORT
| Z3_ARRAY_SORT
| Z3_DATATYPE_SORT
| Z3_RELATION_SORT
| Z3_FINITE_DOMAIN_SORT
| Z3_FLOATING_POINT_SORT
| Z3_ROUNDING_MODE_SORT
| Z3_SEQ_SORT
| Z3_RE_SORT
| Z3_UNKNOWN_SORT.

#[global] Instance Z3_sort_kind_eq_dec : EqDecision Z3_sort_kind.
Proof. solve_decision. Defined.

Definition Z3_sort_kind_to_nat (k : Z3_sort_kind) : nat :=
  match k with
  | Z3_UNINTERPRETED_SORT => 0 | Z3_BOOL_SORT => 1 | Z3_INT_SORT => 2
  | Z3_REAL_SORT => 3 | Z3_BV_SORT => 4 | Z3_ARRAY_SORT => 5
  | Z3_DATATYPE_SORT => 6 | Z3_RELATION_SORT => 7
  | Z3_FINITE_DOMAIN_SORT => 8 | Z3_FLOATING_POINT_SORT => 9
  | Z3_ROUNDING_MODE_SORT => 10 | Z3_SEQ_SORT => 11 | Z3_RE_SORT => 12
  | Z3_UNKNOWN_SORT => 13
  end.

Definition Z3_sort_kind_of_nat (n : nat) : Z3_sort_kind :=
  match n with
  | 0 => Z3_UNINTERPRETED_SORT | 1 => Z3_BOOL_SORT | 2 => Z3_INT_SORT
  | 3 => Z3_REAL_SORT | 4 => Z3_BV_SORT | 5 => Z3_ARRAY_SORT
  | 6 => Z3_DATATYPE_SORT | 7 => Z3_RELATION_SORT
  | 8 => Z3_FINITE_DOMAIN_SORT | 9 => Z3_FLOATING_POINT_SORT
  | 10 => Z3_ROUNDING_MODE_SORT | 11 => Z3_SEQ_SORT | 12 => Z3_RE_SORT
  | _ => Z3_UNKNOWN_SORT
  end.

Lemma Z3_sort_kind_of_to_nat k :
  Z3_sort_kind_of_nat (Z3_sort_kind_to_nat k) = k.
Proof. by destruct k. Qed.

#[global] Instance Z3_sort_kind_countable : Countable Z3_sort_kind :=
  inj_countable' Z3_sort_kind_to_nat Z3_sort_kind_of_nat
    Z3_sort_kind_of_to_nat.

(** [Z3SortHandle], through the three accessors the backend uses.
    [getBitVectorWidth] is a C++ [unsigned]; it is only read for sorts of
    kind [Z3_BV_SORT]. *)
Record Z3SortHandle := mkSort {
  getKind : Z3_sort_kind;
  getBitVectorWidth : N;
  toStr : string;
}.

#[global] Instance Z3SortHandle_eq_dec : EqDecision Z3SortHandle.
Proof. solve_decision. Defined.

Definition Z3SortHandle_to_tuple (s : Z3SortHandle) :
    Z3_sort_kind * N * string :=
  (getKind s, getBitVectorWidth s, toStr s).

Definition Z3SortHandle_of_tuple (t : Z3_sort_kind * N * string) :
    Z3SortHandle :=
  let '(k, w, n) := t in mkSort k w n.

#[global] Instance Z3SortHandle_countable : Countable Z3SortHandle.
Proof.
  apply (inj_countable' Z3SortHandle_to_tuple Z3SortHandle_of_tuple).
  by intros [].
Defined.

(** ** Z3 terms *)

(** [Z3ASTHandle]: a handle on a term of Z3's hash-consed term graph.  Z3
    keeps one node per distinct term, so two handles are the same node
    exactly when they are the same term: handle identity is equality of
    terms, and a sub-term with several parents is one node.  A term is
    either an application ([isApp()], with its declaration and its ordered
    kids) or something else (a bound variable or a quantifier), which the
    traversal treats as a leaf. *)
Unset Elimination Schemes.
Inductive Z3ASTHandle :=
| Z3App (decl : string) (sort : Z3SortHandle) (kids : list Z3ASTHandle)
| Z3NonApp (id : N) (sort : Z3SortHandle).
Set Elimination Schemes.

Definition getSort (e : Z3ASTHandle) : Z3SortHandle :=
  match e with
  | Z3App _ s _ => s
  | Z3NonApp _ s => s
  end.

Definition isApp (e : Z3ASTHandle) : bool :=
  match e with
  | Z3App _ _ _ => true
  | Z3NonApp _ _ => false
  end.

(** [asApp()] followed by [getNumKids()] / [getKid(index)]: the kids in index
    order.  (The source only calls it when [isApp()] holds.) *)
Definition getKids (e : Z3ASTHandle) : list Z3ASTHandle :=
  match e with
  | Z3App _ _ ks => ks
  | Z3NonApp _ _ => []
  end.

(** Number of nodes of the term when written out as a tree. *)
Fixpoint ast_size (e : Z3ASTHandle) : nat :=
  match e with
  | Z3App _ _ ks => S (foldr (λ k acc, ast_size k + acc) 0 ks)
  | Z3NonApp _ _ => 1
  end.

Definition asts_size (l : list Z3ASTHandle) : nat :=
  foldr (λ k acc, ast_size k + acc) 0 l.

(** Induction principle that also gives the hypothesis for the kids. *)
Lemma Z3ASTHandle_ind' (P : Z3ASTHandle → Prop) :
  (∀ d s ks, Forall P ks → P (Z3App d s ks)) →
  (∀ i s, P (Z3NonApp i s)) →
  ∀ e, P e.
Proof.
  intros Happ Hleaf.
  fix IH 1. intros [d s ks | i s]; [|apply Hleaf].
  apply Happ.
  induction ks as [|k ks IHks]; constructor; [apply IH | exact IHks].
Qed.

Fixpoint Z3ASTHandle_to_tree (e : Z3ASTHandle) :
    gen_tree (string * Z3SortHandle + N * Z3SortHandle) :=
  match e with
  | Z3App d s ks =>
      GenNode 0 (GenLeaf (inl (d, s)) :: map Z3ASTHandle_to_tree ks)
  | Z3NonApp i s => GenLeaf (inr (i, s))
  end.

Fixpoint Z3ASTHandle_of_tree
    (t : gen_tree (string * Z3SortHandle + N * Z3SortHandle)) : Z3ASTHandle :=
  match t with
  | GenNode _ (GenLeaf (inl (d, s)) :: ts) =>
      Z3App d s (map Z3ASTHandle_of_tree ts)
  | GenLeaf (inr (i, s)) => Z3NonApp i s
  | _ => Z3NonApp 0 (mkSort Z3_UNKNOWN_SORT 0 "")
  end.

Lemma Z3ASTHandle_of_to_tree e :
  Z3ASTHandle_of_tree (Z3ASTHandle_to_tree e) = e.
Proof.
  induction e as [d s ks IH | i s] using Z3ASTHandle_ind'; [|done].
  simpl. f_equal. induction IH as [|k ks Hk _ IHks]; [done|].
  simpl. by rewrite Hk, IHks.
Qed.

#[global] Instance Z3ASTHandle_eq_dec : EqDecision Z3ASTHandle.
Proof.
  intros x y.
  destruct (decide (Z3ASTHandle_to_tree x = Z3ASTHandle_to_tree y)) as [E|E].
  - left. by rewrite <- (Z3ASTHandle_of_to_tree x), E, Z3ASTHandle_of_to_tree.
  - right. by intros ->.
Defined.

#[global] Instance Z3ASTHandle_countable : Countable Z3ASTHandle :=
  inj_countable' Z3ASTHandle_to_tree Z3ASTHandle_of_tree
    Z3ASTHandle_of_to_tree.

(** ** Queries and the context *)

(** The end-of-line character written by ["\n"] in the source. *)
Definition nl : string := String (Ascii.ascii_of_nat 10) EmptyString.

(** [JFSContext]: the verbosity level and what has been written so far to
    each of its three diagnostic streams (oldest first).  The solver and the
    query refer to one and the same context object
    ([assert(ctx == q.getContext())]), so the context is kept once, in the
    state that is threaded through the calls, and a [Query] holds only its
    constraints. *)
Record JFSContext := mkContext {
  getVerbosity : nat;
  errorStream : list string;
  warningStream : list string;
  debugStream : list string;
}.

Definition writeError (msg : string) (ctx : JFSContext) : JFSContext :=
  mkContext (getVerbosity ctx) (errorStream ctx ++ [msg])
            (warningStream ctx) (debugStream ctx).

Definition writeWarning (msg : string) (ctx : JFSContext) : JFSContext :=
  mkContext (getVerbosity ctx) (errorStream ctx)
            (warningStream ctx ++ [msg]) (debugStream ctx).

Definition writeDebug (msg : string) (ctx : JFSContext) : JFSContext :=
  mkContext (getVerbosity ctx) (errorStream ctx)
            (warningStream ctx) (debugStream ctx ++ [msg]).

(** Modelled from the spec: the macro [IF_VERB] of [jfs/Core/IfVerbose.h],
    which is not among the sources.  The spec describes the diagnostics as
    "a verbosity-gated stream on the context" and verbosity 0 as quiet: the
    action runs when the verbosity is above 0 and is skipped otherwise. *)
Definition IF_VERB (ctx : JFSContext) (action : JFSContext → JFSContext) :
    JFSContext :=
  if decide (0 < getVerbosity ctx) then action ctx else ctx.

(** [Query]: the ordered top-level constraints. *)
Record Query := mkQuery {
  constraints : list Z3ASTHandle;
}.

(** A term is reachable from the query when it is a top-level constraint or
    a kid of a reachable term. *)
Inductive reachable (q : Query) : Z3ASTHandle → Prop :=
| reachable_constraint c :
    c ∈ constraints q → reachable q c
| reachable_kid e k :
    reachable q e → k ∈ getKids e → reachable q k.

(** ** [SortConformanceCheckPass] *)

Section SortConformanceCheckPass.
(** What the predicate closure captures by reference and may change when it
    is called (the backend's predicate captures the context and writes to
    its warning stream). *)
Context {Env : Type}.

(** The pass object: the [predicateHeld] field and the predicate,
    a [std::function<bool(Z3SortHandle)>]. *)
Record SortConformanceCheckPass := mkPass {
  predicateHeld : bool;
  predicate : Z3SortHandle → Env → bool * Env;
}.

(** The constructor: [predicateHeld(false), predicate(predicate)]. *)
Definition newSortConformanceCheckPass
    (predicate : Z3SortHandle → Env → bool * Env) :
    SortConformanceCheckPass :=
  mkPass false predicate.

(** [predicateAlwaysHeld()] is declared in the pass's header, which is not
    among the sources; it reads the [predicateHeld] field. *)
Definition predicateAlwaysHeld (p : SortConformanceCheckPass) : bool :=
  predicateHeld p.

(** Everything [run] can read or write: the [Query&] argument, the pass
    object, the captured environment, and the locals [workList] and
    [visited].  [evaluated] is a ghost field: the nodes whose sort was
    handed to the predicate, in call order.  (The local [variables] of the
    source is never used and is left out.) *)
Record RunState := mkRunState {
  rs_query : Query;
  rs_pass : SortConformanceCheckPass;
  rs_env : Env;
  rs_workList : list Z3ASTHandle;
  rs_visited : gset Z3ASTHandle;
  rs_evaluated : list Z3ASTHandle;
}.

Definition set_predicateHeld (b : bool) (st : RunState) : RunState :=
  mkRunState (rs_query st) (mkPass b (predicate (rs_pass st))) (rs_env st)
             (rs_workList st) (rs_visited st) (rs_evaluated st).

Definition set_workList (wl : list Z3ASTHandle) (st : RunState) :
    RunState :=
  mkRunState (rs_query st) (rs_pass st) (rs_env st) wl (rs_visited st)
             (rs_evaluated st).

Definition push_front (e : Z3ASTHandle) (st : RunState) : RunState :=
  set_workList (e :: rs_workList st) st.

Definition visited_insert (e : Z3ASTHandle) (st : RunState) : RunState :=
  mkRunState (rs_query st) (rs_pass st) (rs_env st) (rs_workList st)
             ({[ e ]} ∪ rs_visited st) (rs_evaluated st).

(** [predicate(node.getSort())]: the answer, and the state after the call. *)
Definition call_predicate (node : Z3ASTHandle) (st : RunState) :
    bool * RunState :=
  let '(answer, env') := predicate (rs_pass st) (getSort node) (rs_env st) in
  (answer,
   mkRunState (rs_query st) (rs_pass st) env' (rs_workList st)
              (rs_visited st) (rs_evaluated st ++ [node])).

(** The [while (workList.size() != 0)] loop.  Each unfolding is one
    iteration; [None] means that [fuel] iterations were not enough. *)
Fixpoint run_loop (fuel : nat) (st : RunState) : option RunState :=
  match fuel with
  | 0 => None
  | S fuel =>
      match rs_workList st with
      | [] => Some st
      | node :: rest =>
          let st := set_workList rest st in
          if decide (node ∈ rs_visited st) then
            (* Already visited. Skip *)
            run_loop fuel st
          else
            (* Check sort *)
            let '(predicateAnswer, st) := call_predicate node st in
            if negb predicateAnswer then
              Some (set_predicateHeld false st)
            else
              let st := visited_insert node st in
              (* Add children to the worklist *)
              if negb (isApp node) then run_loop fuel st
              else run_loop fuel (foldl (λ st k, push_front k st) st
                                        (getKids node))
      end
  end.

(** A number of iterations that is enough for the query (shown below):
    the terms on the work list, written out as trees, have fewer nodes
    after every iteration. *)
Definition run_fuel (q : Query) : nat := S (asts_size (constraints q)).

(** [SortConformanceCheckPass::run(Query &q)].  The result is the returned
    [bool] and the state at the return. *)
Definition run (p : SortConformanceCheckPass) (q : Query) (env : Env) :
    option (bool * RunState) :=
  let st := mkRunState q p env [] ∅ [] in
  let st := foldl (λ st c, push_front c st) st (constraints q) in
  let st := set_predicateHeld true st in
  st ← run_loop (run_fuel q) st;
  Some (false, st).

End SortConformanceCheckPass.

Arguments SortConformanceCheckPass : clear implicits.
Arguments RunState : clear implicits.

(** A predicate without side effects, as a [std::function]. *)
Definition pure_predicate {Env} (P : Z3SortHandle → bool) :
    Z3SortHandle → Env → bool * Env :=
  λ s env, (P s, env).

(** ** The collaborators of the solver *)

Module SolverResponse.
(** [SolverResponse::SolverSatisfiability]. *)
Inductive SolverSatisfiability := SAT | UNSAT | UNKNOWN.

#[global] Instance SolverSatisfiability_eq_dec :
  EqDecision SolverSatisfiability.
Proof. solve_decision. Defined.
End SolverResponse.

Module LibFuzzerResponse.
(** [LibFuzzerResponse::ResponseTy], the outcome of a LibFuzzer run. *)
Inductive ResponseTy := TARGET_FOUND | UNKNOWN | CANCELLED.

#[global] Instance ResponseTy_eq_dec : EqDecision ResponseTy.
Proof. solve_decision. Defined.
End LibFuzzerResponse.

Module ClangOptions.
(** [ClangOptions::SanitizerCoverageTy]. *)
Inductive SanitizerCoverageTy := TRACE_PC_GUARD | TRACE_CMP.

#[global] Instance SanitizerCoverageTy_eq_dec :
  EqDecision SanitizerCoverageTy.
Proof. solve_decision. Defined.
End ClangOptions.

(** The model type; the backend never builds one. *)
Inductive Model := .

(** [CXXFuzzingSolverResponse]: the satisfiability it was constructed with. *)
Record CXXFuzzingSolverResponse := mkResponse {
  sat : SolverResponse.SolverSatisfiability;
}.

(** [CXXFuzzingSolverResponse::getModel()] returns [nullptr]. *)
Definition getModel (r : CXXFuzzingSolverResponse) : option Model := None.

(** The fields of [LibFuzzerOptions] that [fuzz] assigns. *)
Record LibFuzzerOptions := mkLibFuzzerOptions {
  maxLength : N;
  targetBinary : string;
  corpusDir : string;
  artifactDir : string;
  useCmp : bool;
}.

(** An element of the free-variable buffer assignment, with the number of
    bits it occupies in the fuzzer's input buffer. *)
Record BufferElement := mkBufferElement {
  getBitWidth : N;
}.

(** [FuzzingAnalysisInfo], as far as [fuzz] reads it:
    [info->freeVariableAssignment->bufferAssignment]. *)
Record FuzzingAnalysisInfo := mkInfo {
  bufferAssignment : list BufferElement;
}.

(** Modelled from the spec: [BufferAssignment::computeWidth()], which is not
    among the sources.  The spec calls its value the aggregate bit width of
    the free-variable buffer assignment ("free variables occupying 1, 7, and
    16 bits" make 24): the sum of the widths of the elements. *)
Definition computeWidth (ba : list BufferElement) : N :=
  foldr (λ e acc, (getBitWidth e + acc)%N) 0%N ba.

(** Addresses of pass objects ([QueryPass*]), the elements of the registry
    of cancellable passes. *)
Abbreviation QueryPassPtr := N (only parsing).

(** Calls the solver makes on other objects, recorded in call order. *)
Inductive Call :=
| SortConformanceCheckPass_run (pass : QueryPassPtr)
| CXXProgramBuilderPass_run (pass : QueryPassPtr)
| QueryPass_cancel (pass : QueryPassPtr)
| ClangInvocationManager_compile
    (program sourceFile outputFile : string)
    (sanitizerCoverageOptions : list ClangOptions.SanitizerCoverageTy)
    (stdOutFile stdErrFile : string)
| ClangInvocationManager_cancel
| WorkingDirectoryManager_makeNewDirectoryInDirectory (name : string)
| LibFuzzerInvocationManager_fuzz
    (lfo : LibFuzzerOptions) (stdOutFile stdErrFile : string)
| LibFuzzerInvocationManager_cancel.

(** The stages of one solve call during which the solving thread is busy and
    another thread can call [cancel()]. *)
Inductive Stage := CheckSorts | BuildProgram | Compile | ConfigureFuzzer | Fuzz.

#[global] Instance Stage_eq_dec : EqDecision Stage.
Proof. solve_decision. Defined.

(** Everything outside the solver that one solve call depends on. *)
Record World := mkWorld {
  (** whether another thread calls [cancel()] while the solving thread is in
      the given stage *)
  cancelArrives : Stage → bool;
  (** the addresses [make_shared] gives to the two pass objects *)
  sortPassPtr : QueryPassPtr;
  builderPassPtr : QueryPassPtr;
  (** [pbp->getProgram()] after the builder pass has run *)
  getProgram : string;
  (** [options->getClangOptions()->sanitizerCoverageOptions] *)
  sanitizerCoverageOptions : list ClangOptions.SanitizerCoverageTy;
  (** the two operations of the [WorkingDirectoryManager] *)
  getPathToFileInDirectory : string → string;
  makeNewDirectoryInDirectory : string → string;
  (** what [cim.compile(...)] returns *)
  compileSuccess : bool;
  (** the [outcome] of what [lim.fuzz(...)] returns *)
  outcome : LibFuzzerResponse.ResponseTy;
}.

(** ** [CXXFuzzingSolverImpl] *)

(** The solver object: the registry of cancellable passes (guarded by
    [cancellablePassesMutex]), the [cancelled] flag and the context it refers
    to.  [calls] is a ghost field recording the calls made so far.  The
    constructor starts with an empty registry and [cancelled(false)]. *)
Record CXXFuzzingSolverImpl := mkImpl {
  cancellablePasses : gset QueryPassPtr;
  cancelled : bool;
  ctx : JFSContext;
  calls : list Call;
}.

Definition newCXXFuzzingSolverImpl (ctx : JFSContext) : CXXFuzzingSolverImpl :=
  mkImpl ∅ false ctx [].

Definition set_cancelled (b : bool) (s : CXXFuzzingSolverImpl) :
    CXXFuzzingSolverImpl :=
  mkImpl (cancellablePasses s) b (ctx s) (calls s).

Definition set_cancellablePasses (ps : gset QueryPassPtr)
    (s : CXXFuzzingSolverImpl) : CXXFuzzingSolverImpl :=
  mkImpl ps (cancelled s) (ctx s) (calls s).

Definition set_ctx (c : JFSContext) (s : CXXFuzzingSolverImpl) :
    CXXFuzzingSolverImpl :=
  mkImpl (cancellablePasses s) (cancelled s) c (calls s).

(** A call on another object is recorded in [calls].  The streams of [ctx]
    hold what the code of the solver itself writes; what the passes and the
    two invocation managers, which are constructed on the same context,
    write there is not modelled. *)
Definition call (c : Call) (s : CXXFuzzingSolverImpl) : CXXFuzzingSolverImpl :=
  mkImpl (cancellablePasses s) (cancelled s) (ctx s) (calls s ++ [c]).

Definition getName : string := "CXXFuzzingSolver".

(** [CXXFuzzingSolverImpl::cancel()]. *)
Definition cancel (s : CXXFuzzingSolverImpl) : CXXFuzzingSolverImpl :=
  let s := set_cancelled true s in
  (* Cancel any active passes *)
  let s := foldl (λ s pass, call (QueryPass_cancel pass) s) s
                 (elements (cancellablePasses s)) in
  (* Cancel active Clang invocation *)
  let s := call ClangInvocationManager_cancel s in
  (* Cancel active LibFuzzer invocation *)
  call LibFuzzerInvocationManager_cancel s.

(** A [cancel()] from another thread, if the world sends one during the
    stage. *)
Definition interrupt (w : World) (stage : Stage) (s : CXXFuzzingSolverImpl) :
    CXXFuzzingSolverImpl :=
  if cancelArrives w stage then cancel s else s.

(** The double quote character. *)
Definition dquote : string := String (Ascii.ascii_of_nat 34) EmptyString.

(** The predicate that [sortsAreSupported] hands to the pass (the lambda
    capturing [ctx] by reference). *)
Definition sortsAreSupported_predicate (s : Z3SortHandle) (ctx : JFSContext) :
    bool * JFSContext :=
  match getKind s with
  | Z3_BOOL_SORT => (true, ctx)
  | Z3_BV_SORT =>
      let width := getBitVectorWidth s in
      if decide (width ≤ 64)%N then (true, ctx)
      else
        (* Too wide *)
        (false,
         IF_VERB ctx (writeWarning ("(BitVector width " +:+ pretty width +:+
                                    " not supported)" +:+ nl)))
  | _ =>
      (* Sort not supported *)
      (false,
       IF_VERB ctx (writeWarning ("(Sort " +:+ dquote +:+ toStr s +:+ dquote +:+
                                  " not supported)" +:+ nl)))
  end.

(** [CXXFuzzingSolverImpl::sortsAreSupported(Query& q)].  The pass manager
    [pm] holds the one pass [p], so [pm.run(q)] is [p->run(q)], whose [bool]
    the manager drops.  A [cancel()] arriving during the stage finds the pass
    registered. *)
Definition sortsAreSupported (w : World) (s : CXXFuzzingSolverImpl)
    (q : Query) : option (bool * CXXFuzzingSolverImpl * Query) :=
  let p := newSortConformanceCheckPass sortsAreSupported_predicate in
  (* Make the pass cancellable *)
  let s :=
    set_cancellablePasses ({[ sortPassPtr w ]} ∪ cancellablePasses s) s in
  let s := call (SortConformanceCheckPass_run (sortPassPtr w)) s in
  '(_, st) ← run p q (ctx s);
  let s := set_ctx (rs_env st) s in
  let s := interrupt w CheckSorts s in
  (* The pass is done remove it from set of cancellable passes *)
  let s :=
    set_cancellablePasses (cancellablePasses s ∖ {[ sortPassPtr w ]}) s in
  Some (predicateAlwaysHeld (rs_pass st), s, rs_query st).

Section fuzz.
(** The number of bits of the unsigned integer type in which
    [computeWidth() + 7] is computed.  The type is declared in a header
    that is not among the sources, so it is left open. *)
Variable uint_bits : N.

(** Unsigned arithmetic wraps around. *)
Definition wrap (n : N) : N := (n mod 2 ^ uint_bits)%N.

(** The result of a solve call: the response ([None] for [nullptr]) and
    the solver afterwards. *)
Definition FuzzResult : Type :=
  option (option CXXFuzzingSolverResponse * CXXFuzzingSolverImpl).

Definition respond (r : SolverResponse.SolverSatisfiability)
    (s : CXXFuzzingSolverImpl) : FuzzResult :=
  Some (Some (mkResponse r), s).

(** The macro [CHECK_CANCELLED()]; [k] is the code after it. *)
Definition CHECK_CANCELLED (s : CXXFuzzingSolverImpl)
    (k : CXXFuzzingSolverImpl → FuzzResult) : FuzzResult :=
  if cancelled s then
    respond SolverResponse.UNKNOWN
      (set_ctx (IF_VERB (ctx s)
                  (writeDebug ("(" +:+ getName +:+ " cancelled)" +:+ nl))) s)
  else k s.

(** [lfo->maxLength = (... ->computeWidth() + 7) / 8]. *)
Definition compute_maxLength (info : FuzzingAnalysisInfo) : N :=
  (wrap (computeWidth (bufferAssignment info) + 7) / 8)%N.

(** [CXXFuzzingSolverImpl::fuzz(q, produceModel, info)]. *)
Definition fuzz (w : World) (s : CXXFuzzingSolverImpl) (q : Query)
    (produceModel : bool) (info : FuzzingAnalysisInfo) : FuzzResult :=
  if produceModel then
    Some (None,
          set_ctx (writeError ("(error model generation not supported)" +:+ nl)
                              (ctx s)) s)
  else
    (* Check types are supported *)
    '(supported, s, q) ← sortsAreSupported w s q;
    if negb supported then
      respond SolverResponse.UNKNOWN
        (set_ctx (IF_VERB (ctx s) (writeDebug ("(unsupported sorts)" +:+ nl)))
                 s)
    else
    (* Cancellation point *)
    CHECK_CANCELLED s (λ s,
    (* Generate program *)
    let pbp := builderPassPtr w in
    (* Make the pass cancellable *)
    let s := set_cancellablePasses ({[ pbp ]} ∪ cancellablePasses s) s in
    let s := call (CXXProgramBuilderPass_run pbp) s in
    let s := interrupt w BuildProgram s in
    (* Pass is done. Remove from the set of cancellable passes *)
    let s := set_cancellablePasses ({[ pbp ]} ∪ cancellablePasses s) s in
    (* Cancellation point *)
    CHECK_CANCELLED s (λ s,
    (* Build program *)
    let sourceFilePath := getPathToFileInDirectory w "program.cpp" in
    let outputFilePath := getPathToFileInDirectory w "fuzzer" in
    let quiet := bool_decide (getVerbosity (ctx s) = 0) in
    (* When being quiet redirect to files *)
    let clangStdOutFile :=
      if quiet then getPathToFileInDirectory w "clang.stdout.txt" else "" in
    let clangStdErrFile :=
      if quiet then getPathToFileInDirectory w "clang.stderr.txt" else "" in
    let s := call (ClangInvocationManager_compile
                     (getProgram w) sourceFilePath outputFilePath
                     (sanitizerCoverageOptions w)
                     clangStdOutFile clangStdErrFile) s in
    let s := interrupt w Compile s in
    if negb (compileSuccess w) then respond SolverResponse.UNKNOWN s
    else
    (* Cancellation point *)
    CHECK_CANCELLED s (λ s,
    (* Set LibFuzzer options *)
    let s := call (WorkingDirectoryManager_makeNewDirectoryInDirectory
                     "corpus") s in
    let corpusDir := makeNewDirectoryInDirectory w "corpus" in
    let s := call (WorkingDirectoryManager_makeNewDirectoryInDirectory
                     "artifacts") s in
    let artifactDir := makeNewDirectoryInDirectory w "artifacts" in
    let lfo :=
      mkLibFuzzerOptions
        (compute_maxLength info) outputFilePath corpusDir artifactDir
        (bool_decide (ClangOptions.TRACE_CMP ∈ sanitizerCoverageOptions w)) in
    let libFuzzerStdOutFile :=
      if quiet then getPathToFileInDirectory w "libfuzzer.stdout.txt"
      else "" in
    let libFuzzerStdErrFile :=
      if quiet then getPathToFileInDirectory w "libfuzzer.stderr.txt"
      else "" in
    let s := interrupt w ConfigureFuzzer s in
    (* Fuzz *)
    let s := call (LibFuzzerInvocationManager_fuzz
                     lfo libFuzzerStdOutFile libFuzzerStdErrFile) s in
    let s := interrupt w Fuzz s in
    match outcome w with
    | LibFuzzerResponse.UNKNOWN | LibFuzzerResponse.CANCELLED =>
        respond SolverResponse.UNKNOWN s
    | LibFuzzerResponse.TARGET_FOUND =>
        (* Solution found *)
        respond SolverResponse.SAT s
    end))).

End fuzz.

(** * The vocabulary of the properties *)

Local Close Scope string_scope.

(** ** The traversal *)

(** What holds at the head of the loop, before every iteration. *)
Record loop_inv {Env} (q : Query) (P : Z3SortHandle → bool)
    (st : RunState Env) : Prop := mkLoopInv {
  inv_query : rs_query st = q;
  inv_held : predicateHeld (rs_pass st) = true;
  inv_answers : ∀ s env, (predicate (rs_pass st) s env).1 = P s;
  inv_accepted : ∀ n, n ∈ rs_visited st → P (getSort n) = true;
  inv_reachable :
    ∀ n, n ∈ rs_workList st ∨ n ∈ rs_visited st → reachable q n;
  inv_closed :
    ∀ n k, n ∈ rs_visited st → k ∈ getKids n →
           k ∈ rs_visited st ∨ k ∈ rs_workList st;
  inv_roots :
    ∀ c, c ∈ constraints q → c ∈ rs_visited st ∨ c ∈ rs_workList st;
  inv_once : NoDup (rs_evaluated st);
  inv_evaluated : ∀ n, n ∈ rs_evaluated st ↔ n ∈ rs_visited st;
}.

(** What holds when the loop is left. *)
Record loop_post {Env} (q : Query) (P : Z3SortHandle → bool)
    (st : RunState Env) : Prop := mkLoopPost {
  post_query : rs_query st = q;
  post_once : NoDup (rs_evaluated st);
  post_reachable : ∀ n, n ∈ rs_evaluated st → reachable q n;
  post_held :
    predicateHeld (rs_pass st) = true ↔
    ∀ n, reachable q n → P (getSort n) = true;
  post_all :
    predicateHeld (rs_pass st) = true →
    ∀ n, reachable q n → n ∈ rs_evaluated st;
}.

(** How often the predicate was called on the sort of node [n]. *)
Definition times_evaluated {Env} (n : Z3ASTHandle) (st : RunState Env) : nat :=
  length (filter (λ m, m = n) (rs_evaluated st)).

(** The boolean answer of the backend's predicate. *)
Definition supported_sort (s : Z3SortHandle) : bool :=
  match getKind s with
  | Z3_BOOL_SORT => true
  | Z3_BV_SORT => bool_decide (getBitVectorWidth s ≤ 64)%N
  | _ => false
  end.

(** ** The solve call *)

(** The four parts of the pipeline whose invocations are counted. *)
Inductive Collaborator :=
| SortCheck | ProgramBuilder | CompilationManager | FuzzExecutionManager.

(** Whether a call is a run of the given collaborator. *)
Definition invokes (k : Collaborator) (c : Call) : bool :=
  match k, c with
  | SortCheck, SortConformanceCheckPass_run _ => true
  | ProgramBuilder, CXXProgramBuilderPass_run _ => true
  | CompilationManager, ClangInvocationManager_compile _ _ _ _ _ _ => true
  | FuzzExecutionManager, LibFuzzerInvocationManager_fuzz _ _ _ => true
  | _, _ => false
  end.

(** How often the collaborator has been run so far. *)
Definition invocations (k : Collaborator) (s : CXXFuzzingSolverImpl) : nat :=
  length (List.filter (invokes k) (calls s)).

(** The options handed to LibFuzzer by the [fuzz] calls made so far. *)
Definition fuzz_requests (s : CXXFuzzingSolverImpl) : list LibFuzzerOptions :=
  omap (λ c, match c with
             | LibFuzzerInvocationManager_fuzz lfo _ _ => Some lfo
             | _ => None
             end) (calls s).

(** The [cancelled] flag as the checkpoint after the sort check reads it: set
    before the call, or by a [cancel()] that arrived during the check. *)
Definition flag_after_CheckSorts (w : World) (s : CXXFuzzingSolverImpl) :
    bool :=
  cancelled s || cancelArrives w CheckSorts.

(** The flag as the checkpoint after the builder pass reads it. *)
Definition flag_after_BuildProgram (w : World) (s : CXXFuzzingSolverImpl) :
    bool :=
  flag_after_CheckSorts w s || cancelArrives w BuildProgram.

(** The flag as the checkpoint after a successful compilation reads it. *)
Definition flag_after_Compile (w : World) (s : CXXFuzzingSolverImpl) :
    bool :=
  flag_after_BuildProgram w s || cancelArrives w Compile.

(** Whether the call gets to run the builder pass, given the answer of the
    sort check. *)
Definition runs_builder (w : World) (s : CXXFuzzingSolverImpl)
    (supported : bool) : bool :=
  supported && negb (flag_after_CheckSorts w s).

(** Whether the call gets to invoke the Clang invocation manager. *)
Definition runs_compile (w : World) (s : CXXFuzzingSolverImpl)
    (supported : bool) : bool :=
  runs_builder w s supported && negb (flag_after_BuildProgram w s).

(** Whether the call gets to invoke the LibFuzzer invocation manager. *)
Definition runs_fuzz (w : World) (s : CXXFuzzingSolverImpl)
    (supported : bool) : bool :=
  runs_compile w s supported && compileSuccess w
  && negb (flag_after_Compile w s).

(** The satisfiability a call that does not ask for a model answers. *)
Definition verdict (w : World) (s : CXXFuzzingSolverImpl)
    (supported : bool) : SolverResponse.SolverSatisfiability :=
  if runs_fuzz w s supported then
    match outcome w with
    | LibFuzzerResponse.TARGET_FOUND => SolverResponse.SAT
    | _ => SolverResponse.UNKNOWN
    end
  else SolverResponse.UNKNOWN.

(** [ceil (a / b)] on the natural numbers. *)
Definition ceil_div (a b : N) : N :=
  (a / b + (if (a mod b =? 0)%N then 0 else 1))%N.

(** ** Observing concrete calls *)

(** What a call of [run] shows from outside: the returned [bool], the value
    of [predicateAlwaysHeld()] and the nodes that were evaluated. *)
Definition run_outcome {Env} (r : option (bool * RunState Env)) :
    option (bool * bool * list Z3ASTHandle) :=
  '(b, st) ← r; Some (b, predicateAlwaysHeld (rs_pass st), rs_evaluated st).

(** What a solve call shows from outside: the response, the flag, the
    registry, the calls made and the context. *)
Definition fuzz_outcome (r : FuzzResult) :
    option (option CXXFuzzingSolverResponse * bool * list QueryPassPtr
            * list Call * JFSContext) :=
  '(resp, s) ← r;
  Some (resp, cancelled s, elements (cancellablePasses s), calls s, ctx s).

(** A short view of a solve call: the response, the flag, and how often
    each collaborator has been invoked. *)
Definition fuzz_summary (r : FuzzResult) :
    option (option CXXFuzzingSolverResponse * bool * (nat * nat * nat * nat)) :=
  '(resp, s) ← r;
  Some (resp, cancelled s,
        (invocations SortCheck s, invocations ProgramBuilder s,
         invocations CompilationManager s,
         invocations FuzzExecutionManager s)).

(** ** Concrete inputs *)

Module Examples.
Local Open Scope string_scope.

Definition BoolSort : Z3SortHandle := mkSort Z3_BOOL_SORT 0 "Bool".

Definition BitVecSort (width : N) : Z3SortHandle :=
  mkSort Z3_BV_SORT width ("(_ BitVec " +:+ pretty width +:+ ")").

Definition x : Z3ASTHandle := Z3App "x" (BitVecSort 8) [].
Definition y : Z3ASTHandle := Z3App "y" (BitVecSort 8) [].

(** [x + y], which both constraints below contain. *)
Definition shared : Z3ASTHandle := Z3App "bvadd" (BitVecSort 8) [x; y].

(** [x + y <u x] and [x + y = y]. *)
Definition parent1 : Z3ASTHandle := Z3App "bvult" BoolSort [shared; x].
Definition parent2 : Z3ASTHandle := Z3App "=" BoolSort [shared; y].

(** A query in which [shared] has two parents. *)
Definition query_shared : Query := mkQuery [parent1; parent2].

(** A query with a bit-vector that is one bit too wide. *)
Definition wide : Z3ASTHandle := Z3App "w" (BitVecSort 65) [].
Definition parent_wide : Z3ASTHandle := Z3App "=" BoolSort [wide; wide].
Definition query_wide : Query := mkQuery [parent_wide; parent1].

Definition ctx_quiet : JFSContext := mkContext 0 [] [] [].
Definition ctx_verbose : JFSContext := mkContext 1 [] [] [].

Definition never : Stage → bool := λ _, false.
Definition during (stage : Stage) : Stage → bool :=
  λ st, bool_decide (st = stage).

(** A world in which the toolchain answers as given. *)
Definition world (arrives : Stage → bool) (compiles : bool)
    (found : LibFuzzerResponse.ResponseTy) : World :=
  mkWorld arrives 1 2 "int main() {}" [ClangOptions.TRACE_CMP]
          (λ name, "/wd/" +:+ name) (λ name, "/wd/" +:+ name)
          compiles found.

(** Free variables of 1, 7 and 16 bits. *)
Definition info_1_7_16 : FuzzingAnalysisInfo :=
  mkInfo [mkBufferElement 1; mkBufferElement 7; mkBufferElement 16].



End Examples.

(** ** The traversal, replayed and as a recursion *)

(** The predicate applied to the sorts of the nodes of [l], one after the
    other from the environment [env], up to and including the first
    rejection: the last answer, the environment after the calls, and the
    nodes that were not looked at any more. *)
Fixpoint replay {Env} (pred : Z3SortHandle → Env → bool * Env) (env : Env)
    (l : list Z3ASTHandle) : bool * Env * list Z3ASTHandle :=
  match l with
  | [] => (true, env, [])
  | n :: l =>
      let '(answer, env') := pred (getSort n) env in
      if answer then replay pred env' l else (false, env', l)
  end.

(** A depth-first search keeps what it has visited, the order in which it
    evaluated the nodes, and whether every evaluation so far succeeded. *)
Record Dfs := mkDfs {
  dfs_visited : gset Z3ASTHandle;
  dfs_order : list Z3ASTHandle;
  dfs_ok : bool;
}.

(** The recursive depth-first search from one term: nothing to do once a
    node was rejected or when the term was visited before; otherwise the
    term is evaluated and, when it is accepted, its kids are searched, the
    last kid first. *)
Fixpoint dfs_visit (P : Z3SortHandle → bool) (e : Z3ASTHandle) (a : Dfs) :
    Dfs :=
  match e with
  | Z3App _ s ks =>
      if negb (dfs_ok a) then a
      else if decide (e ∈ dfs_visited a) then a
      else if negb (P s) then mkDfs (dfs_visited a) (dfs_order a ++ [e]) false
      else foldr (λ k acc, dfs_visit P k acc)
                 (mkDfs ({[ e ]} ∪ dfs_visited a) (dfs_order a ++ [e]) true)
                 ks
  | Z3NonApp _ s =>
      if negb (dfs_ok a) then a
      else if decide (e ∈ dfs_visited a) then a
      else if negb (P s) then mkDfs (dfs_visited a) (dfs_order a ++ [e]) false
      else mkDfs ({[ e ]} ∪ dfs_visited a) (dfs_order a ++ [e]) true
  end.

(** The search of a whole query: from the last constraint to the first. *)
Definition dfs_query (P : Z3SortHandle → bool) (q : Query) : Dfs :=
  foldr (λ c acc, dfs_visit P c acc) (mkDfs ∅ [] true) (constraints q).

(** ** What a solve call asks of its collaborators *)

(** Whether a call is one of the three kinds that [cancel()] makes. *)
Definition is_cancel (c : Call) : bool :=
  match c with
  | QueryPass_cancel _
  | ClangInvocationManager_cancel
  | LibFuzzerInvocationManager_cancel => true
  | _ => false
  end.

(** The calls made so far, cancellations aside. *)
Definition pipeline (s : CXXFuzzingSolverImpl) : list Call :=
  List.filter (λ c, negb (is_cancel c)) (calls s).

(** The passes on which [cancel()] has been called so far, in call order. *)
Definition cancelled_passes (s : CXXFuzzingSolverImpl) : list QueryPassPtr :=
  omap (λ c, match c with QueryPass_cancel p => Some p | _ => None end)
       (calls s).

(** How often [cancel()] has been forwarded to the two invocation
    managers. *)
Definition manager_cancels (s : CXXFuzzingSolverImpl) : nat :=
  length (List.filter
            (λ c, match c with
                  | ClangInvocationManager_cancel
                  | LibFuzzerInvocationManager_cancel => true
                  | _ => false
                  end) (calls s)).

(** The calls of a complete solve call, cancellations aside, in the order
    in which [fuzz] makes them, for a context of the given verbosity. *)
Definition expected_pipeline (bits : N) (w : World) (verbosity : nat)
    (info : FuzzingAnalysisInfo) : list Call :=
  let quiet := bool_decide (verbosity = 0) in
  let file name :=
    if quiet then getPathToFileInDirectory w name else ""%string in
  [ SortConformanceCheckPass_run (sortPassPtr w);
    CXXProgramBuilderPass_run (builderPassPtr w);
    ClangInvocationManager_compile
      (getProgram w)
      (getPathToFileInDirectory w "program.cpp")
      (getPathToFileInDirectory w "fuzzer")
      (sanitizerCoverageOptions w)
      (file "clang.stdout.txt"%string) (file "clang.stderr.txt"%string);
    WorkingDirectoryManager_makeNewDirectoryInDirectory "corpus";
    WorkingDirectoryManager_makeNewDirectoryInDirectory "artifacts";
    LibFuzzerInvocationManager_fuzz
      (mkLibFuzzerOptions
         (compute_maxLength bits info)
         (getPathToFileInDirectory w "fuzzer")
         (makeNewDirectoryInDirectory w "corpus")
         (makeNewDirectoryInDirectory w "artifacts")
         (bool_decide (ClangOptions.TRACE_CMP ∈ sanitizerCoverageOptions w)))
      (file "libfuzzer.stdout.txt"%string)
      (file "libfuzzer.stderr.txt"%string) ].

(** How many of them a call that does not ask for a model gets to make. *)
Definition pipeline_length (w : World) (s : CXXFuzzingSolverImpl)
    (supported : bool) : nat :=
  1 + Nat.b2n (runs_builder w s supported)
  + Nat.b2n (runs_compile w s supported)
  + 3 * Nat.b2n (runs_fuzz w s supported).

(** Whether a call whose sorts are supported returns at one of the three
    cancellation points. *)
Definition stops_at_checkpoint (w : World) (s : CXXFuzzingSolverImpl) : bool :=
  flag_after_BuildProgram w s || (compileSuccess w && flag_after_Compile w s).

(** The registry after the sort check, and after the builder pass. *)
Definition registry_after_CheckSorts (w : World) (s : CXXFuzzingSolverImpl) :
    gset QueryPassPtr :=
  ({[ sortPassPtr w ]} ∪ cancellablePasses s) ∖ {[ sortPassPtr w ]}.

Definition registry_after_BuildProgram (w : World)
    (s : CXXFuzzingSolverImpl) : gset QueryPassPtr :=
  {[ builderPassPtr w ]}
  ∪ ({[ builderPassPtr w ]} ∪ registry_after_CheckSorts w s).

(** * Properties *)

(** ** Sizes of terms and the work list *)

Lemma asts_size_cons e l : asts_size (e :: l) = ast_size e + asts_size l.
Proof. done. Qed.

Lemma asts_size_app l1 l2 :
  asts_size (l1 ++ l2) = asts_size l1 + asts_size l2.
Proof.
  induction l1 as [|e l1 IH]; [done|].
  rewrite <- app_comm_cons, !asts_size_cons, IH. lia.
Qed.

Lemma asts_size_reverse l : asts_size (reverse l) = asts_size l.
Proof.
  induction l as [|e l IH]; [done|].
  rewrite reverse_cons, asts_size_app, IH, !asts_size_cons. simpl. lia.
Qed.

Lemma ast_size_kids e : ast_size e = S (asts_size (getKids e)).
Proof. by destruct e. Qed.

Lemma getKids_not_app e : isApp e = false → getKids e = [].
Proof. by destruct e. Qed.

(** ** The loop of [SortConformanceCheckPass::run] *)

Section run_loop_facts.
Context {Env : Type}.
Implicit Types st : RunState Env.

(** Pushing a list at the front, one element after the other, leaves it
    reversed at the head of the work list and touches nothing else. *)
Lemma foldl_push_front st l :
  foldl (λ st k, push_front k st) st l
  = set_workList (reverse l ++ rs_workList st) st.
Proof.
  revert st. induction l as [|k l IH]; intros st.
  - by destruct st.
  - simpl. rewrite IH, reverse_cons, <- app_assoc. done.
Qed.

(** One iteration, when the node at the front was visited before. *)
Lemma run_loop_skip fuel st node rest :
  rs_workList st = node :: rest →
  node ∈ rs_visited st →
  run_loop (S fuel) st = run_loop fuel (set_workList rest st).
Proof.
  intros Hwl Hin. simpl. rewrite Hwl. simpl. by rewrite decide_True.
Qed.

(** One iteration, when the predicate rejects the node at the front. *)
Lemma run_loop_reject fuel st node rest env' :
  rs_workList st = node :: rest →
  node ∉ rs_visited st →
  predicate (rs_pass st) (getSort node) (rs_env st) = (false, env') →
  run_loop (S fuel) st
  = Some (mkRunState (rs_query st)
            (mkPass false (predicate (rs_pass st))) env' rest
            (rs_visited st) (rs_evaluated st ++ [node])).
Proof.
  intros Hwl Hin Hp. simpl. rewrite Hwl. simpl. rewrite decide_False by done.
  unfold call_predicate. simpl. by rewrite Hp.
Qed.

(** One iteration, when the predicate accepts the node at the front. *)
Lemma run_loop_accept fuel st node rest env' :
  rs_workList st = node :: rest →
  node ∉ rs_visited st →
  predicate (rs_pass st) (getSort node) (rs_env st) = (true, env') →
  run_loop (S fuel) st
  = run_loop fuel
      (mkRunState (rs_query st) (rs_pass st) env'
         (reverse (getKids node) ++ rest)
         ({[ node ]} ∪ rs_visited st) (rs_evaluated st ++ [node])).
Proof.
  intros Hwl Hin Hp. simpl. rewrite Hwl. simpl. rewrite decide_False by done.
  unfold call_predicate. simpl. rewrite Hp. simpl.
  destruct (isApp node) eqn:Happ; simpl.
  - by rewrite foldl_push_front.
  - by rewrite (getKids_not_app _ Happ).
Qed.
End run_loop_facts.

(** ** The traversal invariant *)

Section run_correct.
Context {Env : Type}.
(** The query that is checked, and the boolean answers of the predicate. *)
Variable q : Query.
Variable P : Z3SortHandle → bool.
Implicit Types st : RunState Env.

Lemma loop_inv_skip st node rest :
  loop_inv q P st → rs_workList st = node :: rest → node ∈ rs_visited st →
  loop_inv q P (set_workList rest st).
Proof.
  intros [Hquery Hheld Hanswers Haccepted Hreachable Hclosed
          Hroots Honce Hevaluated] Hwl Hin.
  split; simpl; try done.
  - intros n [Hn|Hn]; apply Hreachable; [left|by right].
    rewrite Hwl. by apply list_elem_of_further.
  - intros n k Hn Hk. destruct (Hclosed n k Hn Hk) as [?|Hk']; [by left|].
    rewrite Hwl in Hk'. apply elem_of_cons in Hk' as [->|?]; auto.
  - intros c Hc. destruct (Hroots c Hc) as [?|Hc']; [by left|].
    rewrite Hwl in Hc'. apply elem_of_cons in Hc' as [->|?]; auto.
Qed.

Lemma loop_inv_accept st node rest env' :
  loop_inv q P st → rs_workList st = node :: rest → node ∉ rs_visited st →
  P (getSort node) = true →
  loop_inv q P
    (mkRunState (rs_query st) (rs_pass st) env'
       (reverse (getKids node) ++ rest)
       ({[ node ]} ∪ rs_visited st) (rs_evaluated st ++ [node])).
Proof.
  intros [Hquery Hheld Hanswers Haccepted Hreachable Hclosed
          Hroots Honce Hevaluated] Hwl Hin HP.
  assert (Hnode : reachable q node).
  { apply Hreachable. left. rewrite Hwl. apply list_elem_of_here. }
  split; simpl; try done.
  - intros n [->%elem_of_singleton|Hn]%elem_of_union; auto.
  - intros n [[Hn|Hn]%elem_of_app|Hn].
    + rewrite elem_of_reverse in Hn. by apply reachable_kid with node.
    + apply Hreachable. left. rewrite Hwl. by apply list_elem_of_further.
    + apply elem_of_union in Hn as [->%elem_of_singleton|Hn]; auto.
  - intros n k [->%elem_of_singleton|Hn]%elem_of_union Hk.
    + right. apply elem_of_app. left. by apply elem_of_reverse_2.
    + destruct (Hclosed n k Hn Hk) as [?|Hk'];
        [left; apply elem_of_union; by right|].
      rewrite Hwl in Hk'. apply elem_of_cons in Hk' as [->|?].
      * left. apply elem_of_union. left. by apply elem_of_singleton.
      * right. apply elem_of_app. by right.
  - intros c Hc.
    destruct (Hroots c Hc) as [?|Hc']; [left; apply elem_of_union; by right|].
    rewrite Hwl in Hc'. apply elem_of_cons in Hc' as [->|?].
    + left. apply elem_of_union. left. by apply elem_of_singleton.
    + right. apply elem_of_app. by right.
  - apply NoDup_app. split; [done|]. split; [|apply NoDup_singleton].
    intros n Hn ->%list_elem_of_singleton. by apply Hin, Hevaluated.
  - intros n.
    rewrite elem_of_app, list_elem_of_singleton, Hevaluated, elem_of_union,
      elem_of_singleton.
    tauto.
Qed.

(** When the work list is empty, every reachable term has been visited. *)
Lemma loop_inv_done st n :
  loop_inv q P st → rs_workList st = [] → reachable q n → n ∈ rs_visited st.
Proof.
  intros [Hquery Hheld Hanswers Haccepted Hreachable Hclosed
          Hroots Honce Hevaluated] Hwl.
  induction 1 as [c Hc|e k _ IH Hk].
  - destruct (Hroots c Hc) as [?|Hc']; [done|].
    rewrite Hwl in Hc'. by apply elem_of_nil in Hc'.
  - destruct (Hclosed e k IH Hk) as [?|Hk']; [done|].
    rewrite Hwl in Hk'. by apply elem_of_nil in Hk'.
Qed.

(** The loop ends within [fuel] iterations when the terms on the work list
    have fewer than [fuel] nodes, and it ends in a state described by
    [loop_post]. *)
Lemma run_loop_spec fuel st :
  asts_size (rs_workList st) < fuel → loop_inv q P st →
  ∃ st', run_loop fuel st = Some st' ∧ loop_post q P st'.
Proof.
  revert st. induction fuel as [|fuel IH]; intros st Hfuel Hinv; [lia|].
  destruct (rs_workList st) as [|node rest] eqn:Hwl.
  { exists st. split; [simpl; by rewrite Hwl|].
    pose proof (loop_inv_done st) as Hdone.
    destruct Hinv as [Hquery Hheld Hanswers Haccepted Hreachable Hclosed
                        Hroots Honce Hevaluated].
    split; try done.
    - intros n Hn. apply Hreachable. right. by apply Hevaluated.
    - split; [|done]. intros _ n Hn. apply Haccepted.
      apply Hdone; [by split|done..].
    - intros _ n Hn. apply Hevaluated. apply Hdone; [by split|done..]. }
  rewrite asts_size_cons in Hfuel.
  destruct (decide (node ∈ rs_visited st)) as [Hin|Hin].
  { rewrite (run_loop_skip _ _ _ _ Hwl Hin). apply IH.
    - simpl. pose proof (ast_size_kids node). lia.
    - by apply loop_inv_skip with node. }
  destruct (predicate (rs_pass st) (getSort node) (rs_env st))
    as [answer env'] eqn:Hp.
  assert (HP : answer = P (getSort node)).
  { rewrite <- (inv_answers q P st Hinv (getSort node) (rs_env st)).
    by rewrite Hp. }
  destruct answer.
  - rewrite (run_loop_accept _ _ _ _ _ Hwl Hin Hp). apply IH.
    + simpl. rewrite asts_size_app, asts_size_reverse.
      pose proof (ast_size_kids node). lia.
    + by apply loop_inv_accept.
  - rewrite (run_loop_reject _ _ _ _ _ Hwl Hin Hp).
    eexists. split; [done|].
    destruct Hinv as [Hquery Hheld Hanswers Haccepted Hreachable Hclosed
                        Hroots Honce Hevaluated].
    assert (Hnode : reachable q node).
    { apply Hreachable. left. rewrite Hwl. apply list_elem_of_here. }
    split; simpl; try done.
    + apply NoDup_app. split; [done|]. split; [|apply NoDup_singleton].
      intros n Hn ->%list_elem_of_singleton. by apply Hin, Hevaluated.
    + intros n [Hn| ->%list_elem_of_singleton]%elem_of_app; [|done].
      apply Hreachable. right. by apply Hevaluated.
    + split; [done|]. intros Hall. rewrite (Hall node Hnode) in HP. done.
Qed.

(** The state in which [run] enters the loop satisfies the invariant. *)
Lemma loop_inv_init (p : SortConformanceCheckPass Env) env :
  (∀ s env, (predicate p s env).1 = P s) →
  loop_inv q P
    (set_predicateHeld true
       (foldl (λ st c, push_front c st) (mkRunState q p env [] ∅ [])
              (constraints q))).
Proof.
  intros Hp. rewrite foldl_push_front. split; simpl; try done.
  - intros n [Hn|Hn]; [|set_solver].
    rewrite app_nil_r in Hn. by apply reachable_constraint, elem_of_reverse.
  - intros c Hc. right. rewrite app_nil_r. by apply elem_of_reverse_2.
  - apply NoDup_nil_2.
  - intros n. set_solver.
Qed.

(** [run] returns, it returns [false], and the state it returns in is
    described by [loop_post]. *)
Lemma run_spec (p : SortConformanceCheckPass Env) env :
  (∀ s env, (predicate p s env).1 = P s) →
  ∃ st, run p q env = Some (false, st) ∧ loop_post q P st.
Proof.
  intros Hp. unfold run.
  pose proof (loop_inv_init p env Hp) as Hinv.
  apply run_loop_spec with (fuel := run_fuel q) in Hinv
    as (st & Hrun & Hpost).
  - exists st. by rewrite Hrun.
  - rewrite foldl_push_front. simpl.
    rewrite app_nil_r, asts_size_reverse. unfold run_fuel. lia.
Qed.
End run_correct.

(** ** What [run] does for any predicate *)

Section run_any_predicate.
Context {Env : Type}.
Implicit Types st : RunState Env.

(** Whatever the predicate answers and does, the loop ends within [fuel]
    iterations when the terms on the work list have fewer than [fuel]
    nodes, and it leaves the query as it was. *)
Lemma run_loop_total fuel st :
  asts_size (rs_workList st) < fuel →
  ∃ st', run_loop fuel st = Some st' ∧ rs_query st' = rs_query st.
Proof.
  revert st. induction fuel as [|fuel IH]; intros st Hfuel; [lia|].
  destruct (rs_workList st) as [|node rest] eqn:Hwl.
  { exists st. simpl. by rewrite Hwl. }
  rewrite asts_size_cons in Hfuel. pose proof (ast_size_kids node) as Hsize.
  destruct (decide (node ∈ rs_visited st)) as [Hin|Hin].
  { rewrite (run_loop_skip _ _ _ _ Hwl Hin). apply (IH (set_workList rest st)).
    simpl. lia. }
  destruct (predicate (rs_pass st) (getSort node) (rs_env st))
    as [[] env'] eqn:Hp.
  - rewrite (run_loop_accept _ _ _ _ _ Hwl Hin Hp).
    match goal with |- ∃ _, run_loop _ ?st2 = _ ∧ _ =>
      destruct (IH st2) as (st' & Hrun & Hq) end.
    + simpl. rewrite asts_size_app, asts_size_reverse. lia.
    + exists st'. by rewrite Hrun.
  - rewrite (run_loop_reject _ _ _ _ _ Hwl Hin Hp). by eexists.
Qed.

(** [run] returns on every query, with [false], and with the query as it
    was. *)
Lemma run_total (p : SortConformanceCheckPass Env) q env :
  ∃ st, run p q env = Some (false, st) ∧ rs_query st = q.
Proof.
  unfold run.
  match goal with |- ∃ _, (run_loop _ ?st0 ≫= _) = _ ∧ _ =>
    destruct (run_loop_total (run_fuel q) st0) as (st & Hrun & Hq) end.
  - rewrite foldl_push_front. simpl.
    rewrite app_nil_r, asts_size_reverse. unfold run_fuel. lia.
  - exists st. rewrite Hrun. split; [done|].
    rewrite Hq, foldl_push_front. done.
Qed.
End run_any_predicate.

(** ** Counting evaluations *)

Lemma filter_eq_absent (n : Z3ASTHandle) l :
  n ∉ l → filter (λ m, m = n) l = [].
Proof.
  induction l as [|m l IH]; [done|]. intros Hn.
  rewrite filter_cons_False; [apply IH|]; set_solver.
Qed.

Lemma NoDup_filter_eq_length (n : Z3ASTHandle) l :
  NoDup l → n ∈ l → length (filter (λ m, m = n) l) = 1.
Proof.
  induction 1 as [|m l Hm Hl IH]; [by intros ?%elem_of_nil|].
  intros [->|Hn]%elem_of_cons.
  - rewrite filter_cons_True by done. simpl. by rewrite filter_eq_absent.
  - rewrite filter_cons_False; [by apply IH|]. by intros ->.
Qed.

Lemma NoDup_filter_eq_length_le (n : Z3ASTHandle) l :
  NoDup l → length (filter (λ m, m = n) l) ≤ 1.
Proof.
  intros Hl. destruct (decide (n ∈ l)) as [Hn|Hn].
  - by rewrite NoDup_filter_eq_length.
  - rewrite filter_eq_absent by done. simpl. lia.
Qed.

(** ** Counting the calls of a solve call *)

Lemma invocations_call k c s :
  invocations k (call c s) = invocations k s + Nat.b2n (invokes k c).
Proof.
  unfold invocations, call. simpl.
  rewrite List.filter_app, length_app. simpl. by destruct (invokes k c).
Qed.

Lemma invocations_set_cancellablePasses k ps s :
  invocations k (set_cancellablePasses ps s) = invocations k s.
Proof. done. Qed.

Lemma invocations_set_ctx k c s : invocations k (set_ctx c s) = invocations k s.
Proof. done. Qed.

(** ** [cancel()] *)

Lemma cancel_passes_foldl s l :
  foldl (λ s pass, call (QueryPass_cancel pass) s) s l
  = mkImpl (cancellablePasses s) (cancelled s) (ctx s)
           (calls s ++ (QueryPass_cancel <$> l)).
Proof.
  revert s. induction l as [|p l IH]; intros s; simpl.
  - rewrite app_nil_r. by destruct s.
  - rewrite IH. simpl. by rewrite <- app_assoc.
Qed.

(** [cancel()] sets the flag, leaves the registry and the context alone, and
    calls [cancel()] on every registered pass and on both invocation
    managers. *)
Lemma cancel_unfold s :
  cancel s
  = mkImpl (cancellablePasses s) true (ctx s)
      (calls s ++ (QueryPass_cancel <$> elements (cancellablePasses s))
               ++ [ClangInvocationManager_cancel;
                   LibFuzzerInvocationManager_cancel]).
Proof.
  unfold cancel. rewrite cancel_passes_foldl. unfold call. simpl.
  by rewrite <- !app_assoc.
Qed.

Lemma cancelled_cancel s : cancelled (cancel s) = true.
Proof. by rewrite cancel_unfold. Qed.

Lemma cancellablePasses_cancel s :
  cancellablePasses (cancel s) = cancellablePasses s.
Proof. by rewrite cancel_unfold. Qed.

Lemma ctx_cancel s : ctx (cancel s) = ctx s.
Proof. by rewrite cancel_unfold. Qed.

Lemma invocations_cancel k s : invocations k (cancel s) = invocations k s.
Proof.
  rewrite cancel_unfold. unfold invocations. simpl.
  rewrite !List.filter_app, !length_app.
  assert (List.filter (invokes k)
            (QueryPass_cancel <$> elements (cancellablePasses s)) = []) as ->.
  { induction (elements (cancellablePasses s)) as [|p l IH]; [done|].
    simpl. by destruct k. }
  destruct k; simpl; lia.
Qed.

Lemma cancelled_interrupt w stage s :
  cancelled (interrupt w stage s) = cancelled s || cancelArrives w stage.
Proof.
  unfold interrupt. destruct (cancelArrives w stage).
  - by rewrite cancelled_cancel, orb_true_r.
  - by rewrite orb_false_r.
Qed.

Lemma cancellablePasses_interrupt w stage s :
  cancellablePasses (interrupt w stage s) = cancellablePasses s.
Proof.
  unfold interrupt. destruct (cancelArrives w stage); [|done].
  apply cancellablePasses_cancel.
Qed.

Lemma ctx_interrupt w stage s : ctx (interrupt w stage s) = ctx s.
Proof.
  unfold interrupt. destruct (cancelArrives w stage); [|done]. apply ctx_cancel.
Qed.

Lemma invocations_interrupt k w stage s :
  invocations k (interrupt w stage s) = invocations k s.
Proof.
  unfold interrupt. destruct (cancelArrives w stage); [|done].
  apply invocations_cancel.
Qed.

(** ** The backend's predicate *)

Lemma sortsAreSupported_predicate_answer s ctx :
  (sortsAreSupported_predicate s ctx).1 = supported_sort s.
Proof.
  unfold sortsAreSupported_predicate, supported_sort.
  destruct (getKind s); try done.
  case_decide; simpl; [by rewrite bool_decide_true|by rewrite bool_decide_false].
Qed.

Lemma IF_VERB_verbosity ctx action :
  (∀ c, getVerbosity (action c) = getVerbosity c) →
  getVerbosity (IF_VERB ctx action) = getVerbosity ctx.
Proof. intros H. unfold IF_VERB. case_decide; [apply H|done]. Qed.

Lemma sortsAreSupported_predicate_verbosity s ctx :
  getVerbosity (sortsAreSupported_predicate s ctx).2 = getVerbosity ctx.
Proof.
  unfold sortsAreSupported_predicate.
  destruct (getKind s); try done; try by apply IF_VERB_verbosity.
  case_decide; [done|]. by apply IF_VERB_verbosity.
Qed.

Lemma fuzz_requests_call c s :
  fuzz_requests (call c s)
  = fuzz_requests s ++ match c with
                       | LibFuzzerInvocationManager_fuzz lfo _ _ => [lfo]
                       | _ => []
                       end.
Proof.
  unfold fuzz_requests, call. simpl. rewrite omap_app. by destruct c.
Qed.

Lemma fuzz_requests_cancel s : fuzz_requests (cancel s) = fuzz_requests s.
Proof.
  rewrite cancel_unfold. unfold fuzz_requests. simpl. rewrite !omap_app.
  assert (omap (λ c, match c with
                     | LibFuzzerInvocationManager_fuzz lfo _ _ => Some lfo
                     | _ => None
                     end)
            (QueryPass_cancel <$> elements (cancellablePasses s)) = []) as ->.
  { by induction (elements (cancellablePasses s)). }
  simpl. by rewrite app_nil_r.
Qed.

Lemma fuzz_requests_interrupt w stage s :
  fuzz_requests (interrupt w stage s) = fuzz_requests s.
Proof.
  unfold interrupt. destruct (cancelArrives w stage); [|done].
  apply fuzz_requests_cancel.
Qed.

(** ** [sortsAreSupported] *)

(** [sortsAreSupported] returns on every query.  Its answer is that of the
    pass; the solver it leaves behind has the context the predicate wrote
    to, a run of the pass recorded, a [cancel()] applied if one arrived while
    the pass was registered, and the pass removed from the registry. *)
Lemma sortsAreSupported_spec w s q :
  ∃ b ctx',
    sortsAreSupported w s q
    = Some (b,
            set_cancellablePasses
              (({[ sortPassPtr w ]} ∪ cancellablePasses s) ∖ {[ sortPassPtr w ]})
              (interrupt w CheckSorts
                 (set_ctx ctx'
                    (call (SortConformanceCheckPass_run (sortPassPtr w))
                       (set_cancellablePasses
                          ({[ sortPassPtr w ]} ∪ cancellablePasses s) s)))),
            q)
    ∧ (b = true ↔ ∀ n, reachable q n → supported_sort (getSort n) = true).
Proof.
  unfold sortsAreSupported.
  destruct (run_spec q supported_sort
              (newSortConformanceCheckPass sortsAreSupported_predicate)
              (ctx s))
    as (st & Hrun & Hpost).
  { intros. apply sortsAreSupported_predicate_answer. }
  simpl. rewrite Hrun. simpl.
  exists (predicateAlwaysHeld (rs_pass st)), (rs_env st).
  destruct Hpost as [Hq _ _ Hheld _]. rewrite Hq. split; [|done].
  do 3 f_equal. by rewrite cancellablePasses_interrupt.
Qed.

(** ** The paths through [fuzz] *)

Lemma cancelled_call c s : cancelled (call c s) = cancelled s.
Proof. done. Qed.
Lemma cancelled_set_ctx c s : cancelled (set_ctx c s) = cancelled s.
Proof. done. Qed.
Lemma cancelled_set_cancellablePasses ps s :
  cancelled (set_cancellablePasses ps s) = cancelled s.
Proof. done. Qed.
Lemma fuzz_requests_set_ctx c s : fuzz_requests (set_ctx c s) = fuzz_requests s.
Proof. done. Qed.
Lemma fuzz_requests_set_cancellablePasses ps s :
  fuzz_requests (set_cancellablePasses ps s) = fuzz_requests s.
Proof. done. Qed.
Lemma cancellablePasses_set_cancellablePasses ps s :
  cancellablePasses (set_cancellablePasses ps s) = ps.
Proof. done. Qed.
Lemma cancellablePasses_call c s :
  cancellablePasses (call c s) = cancellablePasses s.
Proof. done. Qed.
Lemma cancellablePasses_set_ctx c s :
  cancellablePasses (set_ctx c s) = cancellablePasses s.
Proof. done. Qed.

Create Rewrite HintDb solver_state.
#[local] Hint Rewrite
  cancelled_cancel cancellablePasses_cancel ctx_cancel invocations_cancel
  cancelled_interrupt cancellablePasses_interrupt ctx_interrupt
  invocations_interrupt invocations_call invocations_set_cancellablePasses
  invocations_set_ctx fuzz_requests_call fuzz_requests_interrupt
  cancelled_call cancelled_set_ctx cancelled_set_cancellablePasses
  fuzz_requests_set_ctx fuzz_requests_set_cancellablePasses
  cancellablePasses_set_cancellablePasses cancellablePasses_call
  cancellablePasses_set_ctx
  : solver_state.

Ltac solver_state :=
  autorewrite with solver_state;
  cbn [orb andb negb Nat.b2n invokes app length].

Ltac finish_path :=
  solver_state;
  repeat split;
  first [ done | lia | by rewrite ?app_nil_r
        | by repeat constructor
        | by intros ->
        | by intros Hc; rewrite Hc in *; cbn [orb] in *
        | by intros; apply elem_of_union; left; apply elem_of_singleton
        | idtac ].

(** A solve call that does not ask for a model returns; this is its answer,
    what it invokes, what it hands to LibFuzzer, and what it does to the flag
    and to the registry. *)
Lemma fuzz_spec bits w s q info :
  ∃ b s' new,
    (b = true ↔ ∀ n, reachable q n → supported_sort (getSort n) = true)
    ∧ fuzz bits w s q false info = Some (Some (mkResponse (verdict w s b)), s')
    ∧ invocations SortCheck s' = invocations SortCheck s + 1
    ∧ invocations ProgramBuilder s'
      = invocations ProgramBuilder s + Nat.b2n (runs_builder w s b)
    ∧ invocations CompilationManager s'
      = invocations CompilationManager s + Nat.b2n (runs_compile w s b)
    ∧ invocations FuzzExecutionManager s'
      = invocations FuzzExecutionManager s + Nat.b2n (runs_fuzz w s b)
    ∧ fuzz_requests s' = fuzz_requests s ++ new
    ∧ length new = Nat.b2n (runs_fuzz w s b)
    ∧ Forall (λ lfo, maxLength lfo = compute_maxLength bits info) new
    ∧ (cancelled s = true → cancelled s' = true)
    ∧ (runs_builder w s b = true → builderPassPtr w ∈ cancellablePasses s').
Proof.
  destruct (sortsAreSupported_spec w s q) as (b & ctx' & Hsorts & Hb).
  exists b. unfold fuzz. rewrite Hsorts. clear Hsorts. cbn [mbind option_bind].
  unfold verdict, runs_fuzz, runs_compile, runs_builder,
    flag_after_Compile, flag_after_BuildProgram, flag_after_CheckSorts.
  (* the solver after the sort check *)
  match goal with |- context [negb b] => idtac end.
  match goal with |- context [CHECK_CANCELLED ?S _] => set (s1 := S) end.
  assert (cancelled s1 = cancelled s || cancelArrives w CheckSorts
          ∧ (∀ k, invocations k s1
                  = invocations k s
                    + Nat.b2n (invokes k (SortConformanceCheckPass_run
                                            (sortPassPtr w))))
          ∧ fuzz_requests s1 = fuzz_requests s)
    as (Hc1 & Hi1 & Hr1).
  { subst s1.
    repeat split; try intros k; solver_state; by rewrite ?app_nil_r. }
  clearbody s1.
  destruct b; cbn [negb andb].
  2:{ eexists _, []. split; [done|]. split; [reflexivity|].
      solver_state. rewrite ?Hi1, ?Hr1, ?Hc1. finish_path. }
  unfold CHECK_CANCELLED at 1. rewrite Hc1.
  destruct (cancelled s || cancelArrives w CheckSorts) eqn:F1; cbn [negb andb orb].
  { eexists _, []. split; [done|]. split; [reflexivity|].
    solver_state. rewrite ?Hi1, ?Hr1, ?Hc1, ?F1. finish_path. }
  (* the solver after the builder pass *)
  match goal with |- context [CHECK_CANCELLED ?S _] => set (s2 := S) end.
  assert (cancelled s2 = cancelArrives w BuildProgram
          ∧ (∀ k, invocations k s2
                  = invocations k s1
                    + Nat.b2n (invokes k (CXXProgramBuilderPass_run
                                            (builderPassPtr w))))
          ∧ fuzz_requests s2 = fuzz_requests s
          ∧ builderPassPtr w ∈ cancellablePasses s2)
    as (Hc2 & Hi2 & Hr2 & Hp2).
  { subst s2.
    repeat split; try intros k; solver_state;
      rewrite ?Hc1, ?F1, ?Hr1, ?app_nil_r; try done.
    apply elem_of_union. left. by apply elem_of_singleton. }
  clearbody s2.
  unfold CHECK_CANCELLED at 1. rewrite Hc2.
  destruct (cancelArrives w BuildProgram) eqn:F2; cbn [negb andb orb].
  { eexists _, []. split; [done|]. split; [reflexivity|].
    solver_state. rewrite ?Hi2, ?Hi1, ?Hr2, ?Hc2. finish_path. }
  (* the solver after the compilation *)
  match goal with |- context [interrupt w Compile (call ?c s2)] =>
    set (s3 := interrupt w Compile (call c s2))
  end.
  assert (cancelled s3 = cancelArrives w Compile
          ∧ (∀ k, invocations k s3
                  = invocations k s2
                    + Nat.b2n (match k with
                               | CompilationManager => true
                               | _ => false
                               end))
          ∧ fuzz_requests s3 = fuzz_requests s
          ∧ builderPassPtr w ∈ cancellablePasses s3)
    as (Hc3 & Hi3 & Hr3 & Hp3).
  { subst s3.
    repeat split; try intros k; solver_state;
      by rewrite ?Hc2, ?Hr2, ?app_nil_r. }
  clearbody s3.
  destruct (compileSuccess w) eqn:Hcompile; cbn [negb andb orb].
  2:{ eexists _, []. split; [done|]. split; [reflexivity|].
      rewrite ?Hi3, ?Hi2, ?Hi1, ?Hr3, ?Hc3. finish_path. }
  unfold CHECK_CANCELLED at 1. rewrite Hc3.
  destruct (cancelArrives w Compile) eqn:F3; cbn [negb andb orb].
  { eexists _, []. split; [done|]. split; [reflexivity|].
    solver_state. rewrite ?Hi3, ?Hi2, ?Hi1, ?Hr3, ?Hc3. finish_path. }
  (* the solver after the fuzzing *)
  eexists _, [_]. split; [done|]. split.
  { destruct (outcome w); reflexivity. }
  solver_state. rewrite ?Hi3, ?Hi2, ?Hi1, ?Hr3, ?Hc3. finish_path.
Qed.

(** A solve call that asks for a model returns at once with a null response:
    it writes one line to the error stream and touches nothing else. *)
Lemma fuzz_model_spec bits w s q info :
  fuzz bits w s q true info
  = Some (None,
          set_ctx (writeError ("(error model generation not supported)" +:+ nl)
                              (ctx s)) s).
Proof. done. Qed.

(** [cancel()] calls [cancel()] on every pass it finds in the registry. *)
Lemma cancel_calls_registered p s :
  p ∈ cancellablePasses s → QueryPass_cancel p ∈ calls (cancel s).
Proof.
  intros Hp. rewrite cancel_unfold. simpl.
  apply elem_of_app. right. apply elem_of_app. left.
  apply list_elem_of_fmap. exists p. split; [done|]. by apply elem_of_elements.
Qed.

(** The pass of the sort check is out of the registry when
    [sortsAreSupported] returns. *)
Lemma sortsAreSupported_unregisters w s q b s' q' :
  sortsAreSupported w s q = Some (b, s', q') →
  sortPassPtr w ∉ cancellablePasses s'.
Proof.
  destruct (sortsAreSupported_spec w s q) as (b0 & ctx' & Hsorts & _).
  rewrite Hsorts. intros [= _ <- _]. simpl.
  rewrite elem_of_difference, elem_of_singleton. tauto.
Qed.

(** ** Rounding up to whole bytes *)

(** [ceil_div n 8] is the least number of bytes that hold [n] bits. *)
Lemma ceil_div_8_least n :
  (n ≤ 8 * ceil_div n 8)%N ∧ ∀ k, (n ≤ 8 * k)%N → (ceil_div n 8 ≤ k)%N.
Proof.
  unfold ceil_div.
  pose proof (N.div_mod n 8 ltac:(done)) as Hn.
  pose proof (N.mod_upper_bound n 8 ltac:(done)) as Hr.
  destruct (N.eqb_spec (n mod 8) 0) as [H0|H0];
    revert Hn Hr H0; generalize (n / 8)%N (n mod 8)%N; intros a r Hn Hr H0;
    (split; [lia|intros k Hk; lia]).
Qed.


(** * The claims *)

Import Examples.

(** ** Evaluating concrete calls *)

Lemma run_outcome_inv {Env} (r : option (bool * RunState Env)) b h l :
  run_outcome r = Some (b, h, l) →
  ∃ st, r = Some (b, st) ∧ predicateAlwaysHeld (rs_pass st) = h
        ∧ rs_evaluated st = l.
Proof.
  destruct r as [[b' st]|]; [|done]. simpl. intros [= -> <- <-]. by exists st.
Qed.

Lemma query_shared_outcome :
  run_outcome (run (newSortConformanceCheckPass (pure_predicate supported_sort))
                   query_shared ())
  = Some (false, true, [parent2; y; shared; x; parent1]).
Proof. vm_compute. reflexivity. Qed.

Lemma query_wide_outcome :
  run_outcome (run (newSortConformanceCheckPass (pure_predicate supported_sort))
                   query_wide ())
  = Some (false, false, [parent1; x; shared; y; parent_wide; wide]).
Proof. vm_compute. reflexivity. Qed.

(** ** The sort conformance check *)

(** C3.  For every predicate [P] and every query [q], [run] returns, and
    afterwards [predicateAlwaysHeld()] is true exactly when [P] holds of the
    sort of every term that is reachable from the constraints of [q].  No
    term is handed to the predicate more than once, however many parents it
    has: every term that is evaluated is evaluated exactly once, and after a
    check that passed this is every reachable term.  That [run] returns a
    result at all is the termination of the work-list traversal.  The
    backend's [sortsAreSupported] returns on every query too, with [true]
    exactly when its predicate holds of every reachable term. *)
Theorem sort_conformance_check_correct
    {Env : Type} (P : Z3SortHandle → bool) (q : Query) (env : Env) :
  ∃ st,
    run (newSortConformanceCheckPass (pure_predicate P)) q env
    = Some (false, st)
    ∧ (predicateAlwaysHeld (rs_pass st) = true
       ↔ ∀ n, reachable q n → P (getSort n) = true)
    ∧ (∀ n, times_evaluated n st ≤ 1)
    ∧ (∀ n, n ∈ rs_evaluated st → reachable q n ∧ times_evaluated n st = 1)
    ∧ (predicateAlwaysHeld (rs_pass st) = true →
       ∀ n, reachable q n → times_evaluated n st = 1)
    ∧ (∀ w s,
         ∃ b s',
           sortsAreSupported w s q = Some (b, s', q)
           ∧ (b = true
              ↔ ∀ n, reachable q n → supported_sort (getSort n) = true)).
Proof.
  destruct (run_spec q P (newSortConformanceCheckPass (pure_predicate P)) env)
    as (st & Hrun & [Hq Honce Hreach Hheld Hall]); [done|].
  exists st. unfold times_evaluated, predicateAlwaysHeld.
  split; [done|]. split; [exact Hheld|]. split; [|split; [|split]].
  - intros n. by apply NoDup_filter_eq_length_le.
  - intros n Hn. split; [by apply Hreach|]. by apply NoDup_filter_eq_length.
  - intros Hh n Hn. apply NoDup_filter_eq_length; [done|]. by apply Hall.
  - intros w s. destruct (sortsAreSupported_spec w s q) as (b & c & Hs & Hb).
    eauto.
Qed.

(** The test of the spec for C3: in [query_shared] the term [shared] has the
    two parents [parent1] and [parent2]; the check passes and has evaluated
    the predicate on [shared] once. *)
Example shared_subterm_evaluated_once :
  ∃ st,
    run (newSortConformanceCheckPass (pure_predicate supported_sort))
        query_shared ()
    = Some (false, st)
    ∧ predicateAlwaysHeld (rs_pass st) = true
    ∧ times_evaluated shared st = 1
    ∧ rs_evaluated st = [parent2; y; shared; x; parent1].
Proof.
  destruct (run_outcome_inv _ _ _ _ query_shared_outcome)
    as (st & Hrun & Hheld & Heval).
  exists st. split; [exact Hrun|]. split; [exact Hheld|].
  split; [|exact Heval]. unfold times_evaluated. rewrite Heval.
  vm_compute. reflexivity.
Qed.

(** C9.  Running the pass leaves the query as it was: whatever the predicate
    is, [run] returns, and the query in the state it returns in is the query
    it was given, with the same list of constraints (terms themselves are
    immutable values). *)
Theorem run_leaves_query_unchanged
    {Env : Type} (p : SortConformanceCheckPass Env) (q : Query) (env : Env) :
  ∃ b st,
    run p q env = Some (b, st)
    ∧ rs_query st = q
    ∧ constraints (rs_query st) = constraints q.
Proof.
  destruct (run_total p q env) as (st & Hrun & Hq).
  exists false, st. by rewrite Hq.
Qed.

(** C10.  [run] returns [false] on every query, for every pass; whether the
    predicate held is only to be read from [predicateAlwaysHeld()], which is
    what [sortsAreSupported] returns.  The two queries at the end show the
    same return value [false] with the two different outcomes. *)
Theorem run_always_returns_false :
  (∀ (Env : Type) (p : SortConformanceCheckPass Env) q env,
     ∃ st, run p q env = Some (false, st))
  ∧ (∀ (Env : Type) (P : Z3SortHandle → bool) q (env : Env),
       ∃ st,
         run (newSortConformanceCheckPass (pure_predicate P)) q env
         = Some (false, st)
         ∧ (predicateAlwaysHeld (rs_pass st) = true
            ↔ ∀ n, reachable q n → P (getSort n) = true))
  ∧ (∀ w s q,
       ∃ st s',
         run (newSortConformanceCheckPass sortsAreSupported_predicate) q (ctx s)
         = Some (false, st)
         ∧ sortsAreSupported w s q
           = Some (predicateAlwaysHeld (rs_pass st), s', q))
  ∧ (∃ st1 st2,
       run (newSortConformanceCheckPass (pure_predicate supported_sort))
           query_shared ()
       = Some (false, st1)
       ∧ predicateAlwaysHeld (rs_pass st1) = true
       ∧ run (newSortConformanceCheckPass (pure_predicate supported_sort))
             query_wide ()
         = Some (false, st2)
       ∧ predicateAlwaysHeld (rs_pass st2) = false).
Proof.
  split; [|split; [|split]].
  - intros Env p q env. destruct (run_total p q env) as (st & Hrun & _). eauto.
  - intros Env P q env.
    destruct (run_spec q P (newSortConformanceCheckPass (pure_predicate P)) env)
      as (st & Hrun & [_ _ _ Hheld _]); [done|].
    exists st. split; [done|]. apply Hheld.
  - intros w s q.
    destruct (run_total (newSortConformanceCheckPass sortsAreSupported_predicate)
                q (ctx s)) as (st & Hrun & Hq).
    exists st. unfold sortsAreSupported. simpl. rewrite Hrun. simpl.
    rewrite Hq. eauto.
  - destruct (run_outcome_inv _ _ _ _ query_shared_outcome)
      as (st1 & Hrun1 & Hheld1 & _).
    destruct (run_outcome_inv _ _ _ _ query_wide_outcome)
      as (st2 & Hrun2 & Hheld2 & _).
    exists st1, st2. exact (conj Hrun1 (conj Hheld1 (conj Hrun2 Hheld2))).
Qed.

(** ** The backend's sort predicate *)

(** C4, as amended.  The predicate accepts exactly the Boolean sort and the
    bit-vector sorts of width at most 64, and then writes nothing.  When it
    rejects and the verbosity is above 0 it writes one warning, naming the
    width of a bit-vector that is too wide and the sort otherwise; at
    verbosity 0 it rejects without writing anything.  Width 64 passes and
    width 65 fails, with a warning naming 65 in a verbose context. *)
Theorem default_sort_predicate (s : Z3SortHandle) (ctx : JFSContext) :
  ((sortsAreSupported_predicate s ctx).1 = true
   ↔ getKind s = Z3_BOOL_SORT
     ∨ (getKind s = Z3_BV_SORT ∧ (getBitVectorWidth s ≤ 64)%N))
  ∧ ((sortsAreSupported_predicate s ctx).1 = true →
     (sortsAreSupported_predicate s ctx).2 = ctx)
  ∧ (getKind s = Z3_BV_SORT → (64 < getBitVectorWidth s)%N →
     0 < getVerbosity ctx →
     sortsAreSupported_predicate s ctx
     = (false,
        writeWarning ("(BitVector width "%string +:+ pretty (getBitVectorWidth s)
                      +:+ " not supported)"%string +:+ nl) ctx))
  ∧ (getKind s ≠ Z3_BOOL_SORT → getKind s ≠ Z3_BV_SORT →
     0 < getVerbosity ctx →
     sortsAreSupported_predicate s ctx
     = (false,
        writeWarning ("(Sort "%string +:+ dquote +:+ toStr s +:+ dquote
                      +:+ " not supported)"%string +:+ nl) ctx))
  ∧ (getVerbosity ctx = 0 → (sortsAreSupported_predicate s ctx).2 = ctx)
  ∧ sortsAreSupported_predicate (BitVecSort 64) ctx_verbose
    = (true, ctx_verbose)
  ∧ sortsAreSupported_predicate (BitVecSort 65) ctx_verbose
    = (false,
       mkContext 1 [] ["(BitVector width 65 not supported)"%string +:+ nl] []).
Proof.
  unfold sortsAreSupported_predicate, IF_VERB.
  split; [|split; [|split; [|split; [|split; [|split]]]]].
  - destruct (getKind s) eqn:Hk; simpl; try (split; [done|intros [|[]]; done]).
    + split; [by left|done].
    + case_decide; simpl; split; try done; try by (right).
      intros [|[_ ?]]; done.
  - destruct (getKind s); simpl; try done. by case_decide.
  - intros -> Hw Hv. rewrite decide_False by lia. by rewrite decide_True.
  - intros Hb Hbv Hv. rewrite (decide_True (P := 0 < getVerbosity ctx)) by done.
    by destruct (getKind s).
  - intros ->. destruct (getKind s); simpl; try done. by case_decide.
  - vm_compute. reflexivity.
  - vm_compute. reflexivity.
Qed.

(** C4 as stated fails: in a quiet context (verbosity 0) a bit-vector of
    width 65 and an array sort are rejected and no diagnostic is written. *)
Lemma quiet_rejection_writes_nothing :
  sortsAreSupported_predicate (BitVecSort 65) ctx_quiet = (false, ctx_quiet)
  ∧ sortsAreSupported_predicate (mkSort Z3_ARRAY_SORT 0 "(Array Int Int)")
                                ctx_quiet
    = (false, ctx_quiet)
  ∧ warningStream ctx_quiet = [].
Proof. split; [|split]; vm_compute; reflexivity. Qed.

(** ** The solve call *)

(** A solve call that asks for a model invokes nothing and hands nothing to
    LibFuzzer. *)
Lemma fuzz_model_quiet bits w s q info :
  ∃ s',
    fuzz bits w s q true info = Some (None, s')
    ∧ calls s' = calls s
    ∧ (∀ k, invocations k s' = invocations k s)
    ∧ fuzz_requests s' = fuzz_requests s
    ∧ cancelled s' = cancelled s
    ∧ cancellablePasses s' = cancellablePasses s
    ∧ ctx s' = writeError ("(error model generation not supported)"%string
                           +:+ nl) (ctx s).
Proof. rewrite fuzz_model_spec. eexists. by repeat split. Qed.

(** C2, as amended.  A solve call that asks for a model returns at once: it
    writes the line [(error model generation not supported)] to the error
    stream and returns a null response, not a response carrying UNKNOWN.  It
    makes no call at all, so the sort conformance check, the program builder
    pass, the Compilation Manager and the Fuzz Execution Manager are each
    invoked zero times, and it leaves the flag and the registry alone. *)
Theorem model_request_returns_null
    (bits : N) (w : World) (s : CXXFuzzingSolverImpl) (q : Query)
    (info : FuzzingAnalysisInfo) :
  ∃ s',
    fuzz bits w s q true info = Some (None, s')
    ∧ calls s' = calls s
    ∧ (∀ k, invocations k s' = invocations k s)
    ∧ errorStream (ctx s')
      = errorStream (ctx s)
        ++ ["(error model generation not supported)"%string +:+ nl]
    ∧ cancelled s' = cancelled s
    ∧ cancellablePasses s' = cancellablePasses s.
Proof.
  destruct (fuzz_model_quiet bits w s q info)
    as (s' & Hfuzz & Hcalls & Hinv & _ & Hc & Hp & Hctx).
  exists s'. rewrite Hctx. by repeat split.
Qed.

(** C2 as stated fails: the response of a model-requesting call is null; no
    UNKNOWN verdict is returned. *)
Lemma model_request_is_not_UNKNOWN :
  fuzz_summary
    (fuzz 32 (world never true LibFuzzerResponse.TARGET_FOUND)
          (newCXXFuzzingSolverImpl ctx_quiet) query_shared true info_1_7_16)
  = Some (None, false, (0, 0, 0, 0)).
Proof. vm_compute. reflexivity. Qed.

(** C5, as amended.  The flag is never cleared: [cancel()] sets it, and a
    solve call that starts with the flag set ends with it set.  The flag is
    read at three checkpoints: after the sort check, after the builder pass
    and after a successful compilation.  In a call that does not ask for a
    model, a flag that is set by the time of one of them makes the call
    answer UNKNOWN without invoking what comes after that checkpoint.  In
    particular, after a [cancel()] before the call, the call answers UNKNOWN
    and invokes neither the Compilation Manager nor the Fuzz Execution
    Manager. *)
Theorem cancellation_checkpoints
    (bits : N) (w : World) (s : CXXFuzzingSolverImpl) (q : Query)
    (info : FuzzingAnalysisInfo) :
  cancelled (cancel s) = true
  ∧ (∀ produceModel,
       ∃ r s', fuzz bits w s q produceModel info = Some (r, s')
               ∧ (cancelled s = true → cancelled s' = true))
  ∧ (flag_after_Compile w s = true →
     ∃ s',
       fuzz bits w s q false info
       = Some (Some (mkResponse SolverResponse.UNKNOWN), s')
       ∧ invocations FuzzExecutionManager s'
         = invocations FuzzExecutionManager s
       ∧ (flag_after_BuildProgram w s = true →
          invocations CompilationManager s' = invocations CompilationManager s)
       ∧ (flag_after_CheckSorts w s = true →
          invocations ProgramBuilder s' = invocations ProgramBuilder s))
  ∧ (cancelled s = true →
     ∃ s',
       fuzz bits w s q false info
       = Some (Some (mkResponse SolverResponse.UNKNOWN), s')
       ∧ invocations CompilationManager s' = invocations CompilationManager s
       ∧ invocations FuzzExecutionManager s'
         = invocations FuzzExecutionManager s).
Proof.
  destruct (fuzz_spec bits w s q info)
    as (b & s' & new & _ & Hfuzz & _ & Hpb & Hcm & Hfem & _ & _ & _ & Hc & _).
  split; [apply cancelled_cancel|]. split; [|split].
  - intros [].
    + destruct (fuzz_model_quiet bits w s q info)
        as (s'' & Hm & _ & _ & _ & Hc' & _).
      exists None, s''. split; [done|]. by rewrite Hc'.
    + eauto.
  - intros Hflag. exists s'.
    assert (runs_fuzz w s b = false) as Hrf.
    { unfold runs_fuzz. rewrite Hflag. simpl. apply andb_false_r. }
    rewrite Hfuzz, Hfem, Hcm, Hpb. unfold verdict. rewrite Hrf. simpl.
    split; [done|]. split; [lia|]. split.
    + intros H2. unfold runs_compile. rewrite H2. simpl.
      rewrite andb_false_r. simpl. lia.
    + intros H1. unfold runs_builder. rewrite H1. simpl.
      rewrite andb_false_r. simpl. lia.
  - intros Hs. exists s'.
    assert (flag_after_CheckSorts w s = true) as H1.
    { unfold flag_after_CheckSorts. by rewrite Hs. }
    rewrite Hfuzz, Hfem, Hcm. unfold verdict, runs_fuzz, runs_compile.
    unfold runs_builder, flag_after_Compile, flag_after_BuildProgram.
    rewrite H1. simpl. rewrite !andb_false_r. simpl. split; [done|]. lia.
Qed.

(** At a concrete input: [cancel()] before the call. *)
Lemma cancellation_checkpoints_witness :
  ∃ s',
    fuzz 32 (world never true LibFuzzerResponse.TARGET_FOUND)
         (cancel (newCXXFuzzingSolverImpl ctx_quiet)) query_shared false
         info_1_7_16
    = Some (Some (mkResponse SolverResponse.UNKNOWN), s')
    ∧ invocations CompilationManager s'
      = invocations CompilationManager (cancel (newCXXFuzzingSolverImpl ctx_quiet))
    ∧ invocations FuzzExecutionManager s'
      = invocations FuzzExecutionManager
          (cancel (newCXXFuzzingSolverImpl ctx_quiet)).
Proof.
  exact (proj2 (proj2 (proj2
    (cancellation_checkpoints 32
       (world never true LibFuzzerResponse.TARGET_FOUND)
       (cancel (newCXXFuzzingSolverImpl ctx_quiet)) query_shared info_1_7_16)))
    (cancelled_cancel (newCXXFuzzingSolverImpl ctx_quiet))).
Defined.

(** C5 as stated fails.  There is no checkpoint before the sort check: after
    a [cancel()] before the call the sort check still runs once.  A
    model-requesting call after a [cancel()] returns a null response, not
    UNKNOWN.  There is no checkpoint between the configuration of the fuzzer
    and the fuzzing: a [cancel()] arriving in between sets the flag, the
    Fuzz Execution Manager is invoked all the same, and when it finds the
    target the call answers SAT. *)
Lemma checkpoints_are_missing :
  fuzz_summary
    (fuzz 32 (world never true LibFuzzerResponse.TARGET_FOUND)
          (cancel (newCXXFuzzingSolverImpl ctx_quiet)) query_shared false
          info_1_7_16)
  = Some (Some (mkResponse SolverResponse.UNKNOWN), true, (1, 0, 0, 0))
  ∧ fuzz_summary
      (fuzz 32 (world never true LibFuzzerResponse.TARGET_FOUND)
            (cancel (newCXXFuzzingSolverImpl ctx_quiet)) query_shared true
            info_1_7_16)
    = Some (None, true, (0, 0, 0, 0))
  ∧ fuzz_summary
      (fuzz 32 (world (during ConfigureFuzzer) true
                      LibFuzzerResponse.TARGET_FOUND)
            (newCXXFuzzingSolverImpl ctx_quiet) query_shared false
            info_1_7_16)
    = Some (Some (mkResponse SolverResponse.SAT), true, (1, 1, 1, 1)).
Proof. split; [|split]; vm_compute; reflexivity. Qed.

(** What every solve call does, whether it asks for a model or not: it
    returns, with a null response or one of the two verdicts on the paths of
    [fuzz_spec]. *)
Lemma fuzz_any_spec bits w s q produceModel info :
  ∃ b r s' new,
    fuzz bits w s q produceModel info = Some (r, s')
    ∧ r = (if produceModel then None else Some (mkResponse (verdict w s b)))
    ∧ invocations CompilationManager s'
      = invocations CompilationManager s
        + Nat.b2n (negb produceModel && runs_compile w s b)
    ∧ invocations FuzzExecutionManager s'
      = invocations FuzzExecutionManager s
        + Nat.b2n (negb produceModel && runs_fuzz w s b)
    ∧ fuzz_requests s' = fuzz_requests s ++ new
    ∧ length new = Nat.b2n (negb produceModel && runs_fuzz w s b)
    ∧ Forall (λ lfo, maxLength lfo = compute_maxLength bits info) new.
Proof.
  destruct produceModel.
  - destruct (fuzz_model_quiet bits w s q info)
      as (s' & Hfuzz & _ & Hinv & Hreq & _).
    exists false, None, s', []. rewrite Hfuzz, !Hinv, Hreq, app_nil_r. simpl.
    repeat split; try done; lia.
  - destruct (fuzz_spec bits w s q info)
      as (b & s' & new & _ & Hfuzz & _ & _ & Hcm & Hfem & Hreq & Hlen & Hmax & _).
    exists b, (Some (mkResponse (verdict w s b))), s', new. by repeat split.
Qed.

(** C6.  Every solve call returns, and never with UNSAT: the response is
    null, SAT or UNKNOWN.  In a call that reaches the Fuzz stage (one more
    invocation of the Fuzz Execution Manager than before), the outcome
    TARGET_FOUND gives SAT, and the outcomes UNKNOWN and CANCELLED give
    UNKNOWN. *)
Theorem fuzz_outcome_decides_verdict
    (bits : N) (w : World) (s : CXXFuzzingSolverImpl) (q : Query)
    (produceModel : bool) (info : FuzzingAnalysisInfo) :
  ∃ r s',
    fuzz bits w s q produceModel info = Some (r, s')
    ∧ r ≠ Some (mkResponse SolverResponse.UNSAT)
    ∧ (r = None ∨ r = Some (mkResponse SolverResponse.SAT)
       ∨ r = Some (mkResponse SolverResponse.UNKNOWN))
    ∧ (invocations FuzzExecutionManager s'
       = S (invocations FuzzExecutionManager s) →
       (outcome w = LibFuzzerResponse.TARGET_FOUND →
        r = Some (mkResponse SolverResponse.SAT))
       ∧ (outcome w = LibFuzzerResponse.UNKNOWN
          ∨ outcome w = LibFuzzerResponse.CANCELLED →
          r = Some (mkResponse SolverResponse.UNKNOWN))).
Proof.
  destruct (fuzz_any_spec bits w s q produceModel info)
    as (b & r & s' & new & Hfuzz & -> & _ & Hfem & _).
  exists (if produceModel then None else Some (mkResponse (verdict w s b))), s'.
  split; [done|]. unfold verdict in *.
  destruct produceModel; simpl in *.
  { split; [done|]. split; [by left|]. lia. }
  destruct (runs_fuzz w s b); simpl in *.
  - split; [by destruct (outcome w)|]. split; [destruct (outcome w); auto|].
    intros _. split; [by intros ->|]. by intros [-> | ->].
  - split; [done|]. split; [auto|]. lia.
Qed.

(** At a concrete input: the fuzzer finds the target. *)
Lemma fuzz_outcome_decides_verdict_witness :
  ∃ r s',
    fuzz 32 (world never true LibFuzzerResponse.TARGET_FOUND)
         (newCXXFuzzingSolverImpl ctx_quiet) query_shared false info_1_7_16
    = Some (r, s')
    ∧ invocations FuzzExecutionManager s' = 1
    ∧ r = Some (mkResponse SolverResponse.SAT).
Proof.
  destruct (fuzz_outcome_decides_verdict 32
              (world never true LibFuzzerResponse.TARGET_FOUND)
              (newCXXFuzzingSolverImpl ctx_quiet) query_shared false
              info_1_7_16)
    as (r & s' & Hfuzz & _ & _ & Hreached).
  assert (fuzz_summary
            (fuzz 32 (world never true LibFuzzerResponse.TARGET_FOUND)
                  (newCXXFuzzingSolverImpl ctx_quiet) query_shared false
                  info_1_7_16)
          = Some (Some (mkResponse SolverResponse.SAT), false, (1, 1, 1, 1)))
    as Hsum by (vm_compute; reflexivity).
  rewrite Hfuzz in Hsum. simpl in Hsum.
  injection Hsum as Hr _ _ _ _ Hn.
  exists r, s'. split; [exact Hfuzz|]. split; [exact Hn|].
  exact (proj1 (Hreached Hn) eq_refl).
Defined.


(** The example of the spec for C7: free variables of 1, 7 and 16 bits make
    24 bits, and the call hands LibFuzzer a maximum length of 3 bytes. *)
Example maxLength_1_7_16 :
  computeWidth (bufferAssignment info_1_7_16) = 24%N
  ∧ ceil_div 24 8 = 3%N
  ∧ (maxLength <$>
       fuzz_requests
         (default (newCXXFuzzingSolverImpl ctx_quiet)
            (snd <$> fuzz 32 (world never true LibFuzzerResponse.TARGET_FOUND)
                          (newCXXFuzzingSolverImpl ctx_quiet) query_shared
                          false info_1_7_16)))
    = [3%N].
Proof. split; [|split]; vm_compute; reflexivity. Qed.



(** C8.  No stage is retried: a solve call invokes the Compilation Manager
    at most once and the Fuzz Execution Manager at most once.  When the
    Compilation Manager is invoked and reports failure, the call answers
    UNKNOWN and does not invoke the Fuzz Execution Manager. *)
Theorem compile_failure_is_terminal
    (bits : N) (w : World) (s : CXXFuzzingSolverImpl) (q : Query)
    (produceModel : bool) (info : FuzzingAnalysisInfo) :
  ∃ r s',
    fuzz bits w s q produceModel info = Some (r, s')
    ∧ invocations CompilationManager s' ≤ S (invocations CompilationManager s)
    ∧ invocations FuzzExecutionManager s'
      ≤ S (invocations FuzzExecutionManager s)
    ∧ (invocations CompilationManager s'
       = S (invocations CompilationManager s) →
       compileSuccess w = false →
       r = Some (mkResponse SolverResponse.UNKNOWN)
       ∧ invocations FuzzExecutionManager s'
         = invocations FuzzExecutionManager s).
Proof.
  destruct (fuzz_any_spec bits w s q produceModel info)
    as (b & r & s' & new & Hfuzz & -> & Hcm & Hfem & _).
  eexists _, s'. split; [exact Hfuzz|]. rewrite Hcm, Hfem.
  split; [destruct (negb produceModel && runs_compile w s b); simpl; lia|].
  split; [destruct (negb produceModel && runs_fuzz w s b); simpl; lia|].
  intros Hinvoked Hfail. destruct produceModel; simpl in *; [lia|].
  unfold verdict, runs_fuzz. rewrite Hfail, andb_false_r. simpl.
  split; [done|lia].
Qed.

(** At a concrete input: the compilation fails. *)
Lemma compile_failure_is_terminal_witness :
  ∃ r s',
    fuzz 32 (world never false LibFuzzerResponse.TARGET_FOUND)
         (newCXXFuzzingSolverImpl ctx_quiet) query_shared false info_1_7_16
    = Some (r, s')
    ∧ invocations CompilationManager s' = 1
    ∧ r = Some (mkResponse SolverResponse.UNKNOWN)
    ∧ invocations FuzzExecutionManager s' = 0.
Proof.
  destruct (compile_failure_is_terminal 32
              (world never false LibFuzzerResponse.TARGET_FOUND)
              (newCXXFuzzingSolverImpl ctx_quiet) query_shared false
              info_1_7_16)
    as (r & s' & Hfuzz & _ & _ & Hfailed).
  assert (fuzz_summary
            (fuzz 32 (world never false LibFuzzerResponse.TARGET_FOUND)
                  (newCXXFuzzingSolverImpl ctx_quiet) query_shared false
                  info_1_7_16)
          = Some (Some (mkResponse SolverResponse.UNKNOWN), false,
                  (1, 1, 1, 0)))
    as Hsum by (vm_compute; reflexivity).
  rewrite Hfuzz in Hsum. simpl in Hsum.
  injection Hsum as Hr _ _ _ Hn _.
  exists r, s'. split; [exact Hfuzz|]. split; [exact Hn|].
  destruct (Hfailed Hn eq_refl) as [Hunknown Hfem].
  split; [exact Hunknown|]. exact Hfem.
Defined.

(** ** The registry of cancellable passes *)

(** The sort-check pass is registered while it runs and erased afterwards;
    the builder pass is registered while it runs too, but the statement
    under the comment "Remove from the set of cancellable passes" is a
    second [insert]: whenever the builder pass runs, it is still in the
    registry when the solve call returns, and a later [cancel()] calls
    [cancel()] on it. *)
Lemma builder_pass_never_erased bits w s q info :
  ∃ b s',
    fuzz bits w s q false info = Some (Some (mkResponse (verdict w s b)), s')
    ∧ (runs_builder w s b = true →
       builderPassPtr w ∈ cancellablePasses s'
       ∧ QueryPass_cancel (builderPassPtr w) ∈ calls (cancel s')).
Proof.
  destruct (fuzz_spec bits w s q info)
    as (b & s' & new & _ & Hfuzz & _ & _ & _ & _ & _ & _ & _ & _ & Hreg).
  exists b, s'. split; [done|]. intros Hruns.
  split; [by apply Hreg|]. by apply cancel_calls_registered, Hreg.
Qed.

(** C1, on the code.  A solve call on [query_shared] that finds the target:
    the sort check and the builder pass have both finished, the call has
    returned SAT, and the registry still holds the builder pass (address 2;
    the sort-check pass, address 1, is gone).  A [cancel()] after the call
    calls [cancel()] on the builder pass, which completed long before. *)
Theorem builder_pass_stays_registered :
  ∃ s',
    fuzz 32 (world never true LibFuzzerResponse.TARGET_FOUND)
         (newCXXFuzzingSolverImpl ctx_quiet) query_shared false info_1_7_16
    = Some (Some (mkResponse SolverResponse.SAT), s')
    ∧ elements (cancellablePasses s') = [2%N]
    ∧ builderPassPtr (world never true LibFuzzerResponse.TARGET_FOUND)
      ∈ cancellablePasses s'
    ∧ QueryPass_cancel
        (builderPassPtr (world never true LibFuzzerResponse.TARGET_FOUND))
      ∈ calls (cancel s').
Proof.
  assert (fst <$> (fuzz_outcome
            (fuzz 32 (world never true LibFuzzerResponse.TARGET_FOUND)
                  (newCXXFuzzingSolverImpl ctx_quiet) query_shared false
                  info_1_7_16))
          = Some (Some (mkResponse SolverResponse.SAT), false, [2%N],
                  [SortConformanceCheckPass_run 1; CXXProgramBuilderPass_run 2;
                   ClangInvocationManager_compile
                     "int main() {}" "/wd/program.cpp" "/wd/fuzzer"
                     [ClangOptions.TRACE_CMP]
                     "/wd/clang.stdout.txt" "/wd/clang.stderr.txt";
                   WorkingDirectoryManager_makeNewDirectoryInDirectory "corpus";
                   WorkingDirectoryManager_makeNewDirectoryInDirectory
                     "artifacts";
                   LibFuzzerInvocationManager_fuzz
                     (mkLibFuzzerOptions 3 "/wd/fuzzer" "/wd/corpus"
                                         "/wd/artifacts" true)
                     "/wd/libfuzzer.stdout.txt" "/wd/libfuzzer.stderr.txt"]))
    as Hout by (vm_compute; reflexivity).
  destruct (fuzz 32 (world never true LibFuzzerResponse.TARGET_FOUND)
                 (newCXXFuzzingSolverImpl ctx_quiet) query_shared false
                 info_1_7_16) as [[r s']|]; [|discriminate Hout].
  simpl in Hout. injection Hout as -> _ Helems _.
  assert (2%N ∈ cancellablePasses s') as Hin.
  { apply elem_of_elements. rewrite Helems. apply list_elem_of_here. }
  exists s'. split; [reflexivity|]. split; [exact Helems|].
  split; [exact Hin|]. apply cancel_calls_registered. exact Hin.
Qed.

(** * Further properties of the sort conformance check *)

(** ** Replaying the predicate *)

Section replay_facts.
Context {Env : Type}.
Implicit Types st : RunState Env.

Lemma replay_snoc (pred : Z3SortHandle → Env → bool * Env) env0 env1 l n :
  replay pred env0 l = (true, env1, []) →
  replay pred env0 (l ++ [n])
  = ((pred (getSort n) env1).1, (pred (getSort n) env1).2, []).
Proof.
  revert env0. induction l as [|m l IH]; intros env0; simpl.
  - intros [= ->]. by destruct (pred (getSort n) env1) as [[] ?].
  - destruct (pred (getSort m) env0) as [[] env']; [apply IH|done].
Qed.

(** The loop, for any predicate: the pass keeps its predicate, the state
    of the environment and of [predicateHeld] are those of replaying the
    predicate over the nodes evaluated, and the evaluation log only grows. *)
Lemma run_loop_replay env0 fuel st :
  asts_size (rs_workList st) < fuel →
  predicateHeld (rs_pass st) = true →
  replay (predicate (rs_pass st)) env0 (rs_evaluated st)
  = (true, rs_env st, []) →
  ∃ st',
    run_loop fuel st = Some st'
    ∧ predicate (rs_pass st') = predicate (rs_pass st)
    ∧ replay (predicate (rs_pass st)) env0 (rs_evaluated st')
      = (predicateHeld (rs_pass st'), rs_env st', [])
    ∧ rs_evaluated st `prefix_of` rs_evaluated st'.
Proof.
  revert st. induction fuel as [|fuel IH]; intros st Hfuel Hheld Hrep; [lia|].
  destruct (rs_workList st) as [|node rest] eqn:Hwl.
  { exists st. simpl. rewrite Hwl, Hheld. by repeat split. }
  rewrite asts_size_cons in Hfuel. pose proof (ast_size_kids node) as Hsize.
  destruct (decide (node ∈ rs_visited st)) as [Hin|Hin].
  { rewrite (run_loop_skip _ _ _ _ Hwl Hin).
    apply (IH (set_workList rest st)); simpl; [lia|done..]. }
  pose proof (replay_snoc _ _ _ _ node Hrep) as Hsnoc.
  destruct (predicate (rs_pass st) (getSort node) (rs_env st))
    as [[] env'] eqn:Hp; simpl in Hsnoc.
  - rewrite (run_loop_accept _ _ _ _ _ Hwl Hin Hp).
    match goal with |- ∃ _, run_loop _ ?st2 = _ ∧ _ =>
      destruct (IH st2) as (st' & Hrun & Hpred & Hrep' & Hpre) end.
    + simpl. rewrite asts_size_app, asts_size_reverse. lia.
    + done.
    + done.
    + exists st'. rewrite Hrun. simpl in *. repeat split; try done.
      etrans; [|exact Hpre]. by apply prefix_app_r.
  - rewrite (run_loop_reject _ _ _ _ _ Hwl Hin Hp). eexists. simpl.
    repeat split; try done. by apply prefix_app_r.
Qed.

(** [run], for any predicate. *)
Lemma run_replay (p : SortConformanceCheckPass Env) q env :
  ∃ st,
    run p q env = Some (false, st)
    ∧ predicate (rs_pass st) = predicate p
    ∧ replay (predicate p) env (rs_evaluated st)
      = (predicateHeld (rs_pass st), rs_env st, []).
Proof.
  unfold run.
  match goal with |- ∃ _, (run_loop _ ?st0 ≫= _) = _ ∧ _ =>
    destruct (run_loop_replay env (run_fuel q) st0)
      as (st & Hrun & Hpred & Hrep & _) end.
  - rewrite foldl_push_front. simpl.
    rewrite app_nil_r, asts_size_reverse. unfold run_fuel. lia.
  - by rewrite foldl_push_front.
  - by rewrite foldl_push_front.
  - exists st. rewrite Hrun. rewrite foldl_push_front in Hpred, Hrep.
    by repeat split.
Qed.


End replay_facts.

(** Replaying a predicate without side effects. *)
Lemma replay_pure {Env} (P : Z3SortHandle → bool) (env env' : Env) l b :
  replay (pure_predicate P) env l = (b, env', []) →
  env' = env
  ∧ if b then Forall (λ n, P (getSort n) = true) l
    else ∃ l1 n, l = l1 ++ [n]
                 ∧ Forall (λ m, P (getSort m) = true) l1
                 ∧ P (getSort n) = false.
Proof.
  revert b. induction l as [|m l IH]; intros b; simpl.
  - intros [= <- <-]. by split.
  - unfold pure_predicate at 1. destruct (P (getSort m)) eqn:Hm.
    + intros Hrep. destruct (IH _ Hrep) as [-> Hl]. split; [done|].
      destruct b.
      * by constructor.
      * destruct Hl as (l1 & n & -> & Hl1 & Hn). exists (m :: l1), n.
        split; [done|]. split; [by constructor|done].
    + intros [= <- <- ->]. split; [done|]. exists [], m. by repeat split.
Qed.

(** ** The work list and the recursive search *)

Lemma dfs_visit_unfold P e a :
  dfs_visit P e a
  = if negb (dfs_ok a) then a
    else if decide (e ∈ dfs_visited a) then a
    else if negb (P (getSort e)) then
      mkDfs (dfs_visited a) (dfs_order a ++ [e]) false
    else foldr (λ k acc, dfs_visit P k acc)
               (mkDfs ({[ e ]} ∪ dfs_visited a) (dfs_order a ++ [e]) true)
               (getKids e).
Proof. by destruct e. Qed.

Lemma foldl_reverse_foldr {A B} (f : B → A → A) (a : A) (l : list B) :
  foldl (λ acc x, f x acc) a (reverse l) = foldr f a l.
Proof.
  induction l as [|x l IH]; [done|].
  by rewrite reverse_cons, foldl_snoc, IH.
Qed.

(** Once a node was rejected the search does nothing more. *)
Lemma dfs_visit_stopped P l a :
  dfs_ok a = false → foldl (λ acc n, dfs_visit P n acc) a l = a.
Proof.
  intros Ha. induction l as [|n l IH]; [done|]. simpl.
  rewrite dfs_visit_unfold, Ha. simpl. exact IH.
Qed.

(** The loop with a predicate without side effects ends in the state that
    the recursive search reaches from the work list, front to back. *)
Lemma run_loop_dfs {Env} P fuel (st : RunState Env) :
  asts_size (rs_workList st) < fuel →
  predicateHeld (rs_pass st) = true →
  predicate (rs_pass st) = pure_predicate P →
  ∃ st',
    run_loop fuel st = Some st'
    ∧ mkDfs (rs_visited st') (rs_evaluated st') (predicateHeld (rs_pass st'))
      = foldl (λ acc n, dfs_visit P n acc)
              (mkDfs (rs_visited st) (rs_evaluated st) true) (rs_workList st).
Proof.
  revert st. induction fuel as [|fuel IH]; intros st Hfuel Hheld Hpred; [lia|].
  destruct (rs_workList st) as [|node rest] eqn:Hwl.
  { exists st. simpl. by rewrite Hwl, Hheld. }
  rewrite asts_size_cons in Hfuel. pose proof (ast_size_kids node) as Hsize.
  rewrite (foldl_app _ [node] rest). cbn [foldl].
  rewrite dfs_visit_unfold. cbn [dfs_ok dfs_visited dfs_order negb].
  destruct (decide (node ∈ rs_visited st)) as [Hin|Hin].
  { rewrite (run_loop_skip _ _ _ _ Hwl Hin).
    apply (IH (set_workList rest st)); simpl; [lia|done..]. }
  assert (predicate (rs_pass st) (getSort node) (rs_env st)
          = (P (getSort node), rs_env st)) as Hp by by rewrite Hpred.
  destruct (P (getSort node)) eqn:HP; cbn [negb].
  - rewrite (run_loop_accept _ _ _ _ _ Hwl Hin Hp).
    match goal with |- ∃ _, run_loop _ ?st2 = _ ∧ _ =>
      destruct (IH st2) as (st' & Hrun & Hdfs) end.
    + simpl. rewrite asts_size_app, asts_size_reverse. lia.
    + done.
    + done.
    + exists st'. split; [done|]. rewrite Hdfs. simpl.
      by rewrite foldl_app, foldl_reverse_foldr.
  - rewrite (run_loop_reject _ _ _ _ _ Hwl Hin Hp). eexists. split; [done|].
    simpl. by rewrite dfs_visit_stopped.
Qed.

(** The evaluation log only grows while the loop runs. *)
Lemma run_loop_evaluated_prefix {Env} fuel (st st' : RunState Env) :
  run_loop fuel st = Some st' →
  rs_evaluated st `prefix_of` rs_evaluated st'.
Proof.
  revert st. induction fuel as [|fuel IH]; intros st; [done|].
  destruct (rs_workList st) as [|node rest] eqn:Hwl.
  { simpl. rewrite Hwl. by intros [= ->]. }
  destruct (decide (node ∈ rs_visited st)) as [Hin|Hin].
  { rewrite (run_loop_skip _ _ _ _ Hwl Hin). intros Hrun.
    by apply IH in Hrun. }
  destruct (predicate (rs_pass st) (getSort node) (rs_env st))
    as [[] env'] eqn:Hp.
  - rewrite (run_loop_accept _ _ _ _ _ Hwl Hin Hp). intros Hrun.
    apply IH in Hrun. simpl in Hrun.
    etrans; [|exact Hrun]. by apply prefix_app_r.
  - rewrite (run_loop_reject _ _ _ _ _ Hwl Hin Hp). intros [= <-]. simpl.
    by apply prefix_app_r.
Qed.

(** ** Further properties of [SortConformanceCheckPass::run] *)

(** X1.  The work-list loop of [run] is a depth-first search: it visits and
    evaluates the same terms, in the same order, with the same outcome as
    the recursive search that starts from the last constraint and looks at
    the kids of a term from the last to the first. *)
Theorem run_is_depth_first_search
    {Env : Type} (P : Z3SortHandle → bool) (q : Query) (env : Env) :
  ∃ st,
    run (newSortConformanceCheckPass (pure_predicate P)) q env
    = Some (false, st)
    ∧ rs_visited st = dfs_visited (dfs_query P q)
    ∧ rs_evaluated st = dfs_order (dfs_query P q)
    ∧ predicateAlwaysHeld (rs_pass st) = dfs_ok (dfs_query P q).
Proof.
  unfold run.
  match goal with |- ∃ _, (run_loop _ ?st0 ≫= _) = _ ∧ _ =>
    destruct (run_loop_dfs P (run_fuel q) st0) as (st & Hrun & Hdfs) end.
  - rewrite foldl_push_front. simpl.
    rewrite app_nil_r, asts_size_reverse. unfold run_fuel. lia.
  - by rewrite foldl_push_front.
  - by rewrite foldl_push_front.
  - exists st. rewrite Hrun. split; [done|].
    rewrite foldl_push_front in Hdfs. simpl in Hdfs.
    rewrite app_nil_r, foldl_reverse_foldr in Hdfs.
    assert (dfs_query P q
            = mkDfs (rs_visited st) (rs_evaluated st)
                    (predicateHeld (rs_pass st))) as ->
      by (symmetry; exact Hdfs).
    done.
Qed.

(** X2.  Whatever the predicate does to the state it captured, [run] calls
    it on the evaluated nodes in order, each call starting from what the
    call before left behind, and stops calling it at the first rejection:
    [predicateHeld] and the captured state after [run] are those of this
    sequence of calls, and the pass keeps its predicate. *)
Theorem predicate_called_in_evaluation_order
    {Env : Type} (p : SortConformanceCheckPass Env) (q : Query) (env : Env) :
  ∃ st,
    run p q env = Some (false, st)
    ∧ predicate (rs_pass st) = predicate p
    ∧ replay (predicate p) env (rs_evaluated st)
      = (predicateAlwaysHeld (rs_pass st), rs_env st, []).
Proof. apply run_replay. Qed.

(** X3.  A check that fails stops at the first rejection: its evaluation
    log is a list of accepted terms followed by the one rejected term, which
    is reachable from the constraints; a check that passes has accepted
    every term of its log. *)
Theorem failed_check_stops_at_first_rejection
    {Env : Type} (P : Z3SortHandle → bool) (q : Query) (env : Env) :
  ∃ st,
    run (newSortConformanceCheckPass (pure_predicate P)) q env
    = Some (false, st)
    ∧ (predicateAlwaysHeld (rs_pass st) = false →
       ∃ l n, rs_evaluated st = l ++ [n]
              ∧ Forall (λ m, P (getSort m) = true) l
              ∧ P (getSort n) = false
              ∧ reachable q n)
    ∧ (predicateAlwaysHeld (rs_pass st) = true →
       Forall (λ m, P (getSort m) = true) (rs_evaluated st)).
Proof.
  destruct (run_replay (newSortConformanceCheckPass (pure_predicate P)) q env)
    as (st & Hrun & _ & Hrep).
  destruct (run_spec q P (newSortConformanceCheckPass (pure_predicate P)) env)
    as (st' & Hrun' & [_ _ Hreach _ _]); [done|].
  rewrite Hrun in Hrun'. injection Hrun' as <-.
  exists st. split; [done|]. unfold predicateAlwaysHeld.
  apply replay_pure in Hrep as [_ Hlog].
  destruct (predicateHeld (rs_pass st)); split; try done.
  intros _. destruct Hlog as (l & n & Hl & Hacc & Hrej).
  exists l, n. repeat split; try done.
  apply Hreach. rewrite Hl. apply elem_of_app. right. apply list_elem_of_here.
Qed.


(** X5.  On a query without constraints the check passes without calling
    the predicate.  On any other query the first term handed to the
    predicate is the last constraint. *)
Theorem last_constraint_is_checked_first
    {Env : Type} (p : SortConformanceCheckPass Env) (q : Query) (env : Env) :
  ∃ st,
    run p q env = Some (false, st)
    ∧ (constraints q = [] →
       rs_evaluated st = [] ∧ predicateAlwaysHeld (rs_pass st) = true
       ∧ rs_env st = env)
    ∧ (∀ l c, constraints q = l ++ [c] →
              ∃ rest, rs_evaluated st = c :: rest).
Proof.
  destruct (run_total p q env) as (st & Hrun & _).
  exists st. split; [done|]. unfold run in Hrun.
  rewrite foldl_push_front in Hrun.
  match type of Hrun with run_loop _ ?st0 ≫= _ = _ => set (s0 := st0) in * end.
  destruct (run_loop (run_fuel q) s0) as [st1|] eqn:Hloop; [|done].
  injection Hrun as ->. unfold run_fuel in Hloop. split.
  - intros Hcs. subst s0. rewrite Hcs in Hloop. simpl in Hloop.
    injection Hloop as <-. done.
  - intros l c Hcs.
    assert (rs_workList s0 = c :: reverse l) as Hwl.
    { subst s0. simpl. by rewrite Hcs, app_nil_r, reverse_snoc. }
    assert (c ∉ rs_visited s0) as Hin by apply not_elem_of_empty.
    destruct (predicate (rs_pass s0) (getSort c) (rs_env s0))
      as [[] env'] eqn:Hp.
    + rewrite (run_loop_accept _ _ _ _ _ Hwl Hin Hp) in Hloop.
      apply run_loop_evaluated_prefix in Hloop as [rest Hrest].
      exists rest. exact Hrest.
    + rewrite (run_loop_reject _ _ _ _ _ Hwl Hin Hp) in Hloop.
      injection Hloop as <-. by exists [].
Qed.

(** * Further properties of the solver *)

(** ** [cancel()] and the calls it makes *)

Lemma cancelled_passes_call c s :
  cancelled_passes (call c s)
  = cancelled_passes s
    ++ match c with QueryPass_cancel p => [p] | _ => [] end.
Proof.
  unfold cancelled_passes, call. simpl. rewrite omap_app. by destruct c.
Qed.

Lemma omap_QueryPass_cancel (l : list QueryPassPtr) :
  omap (λ c, match c with QueryPass_cancel p => Some p | _ => None end)
       (QueryPass_cancel <$> l) = l.
Proof. induction l as [|p l IH]; [done|]. csimpl. by rewrite IH. Qed.

Lemma cancelled_passes_cancel s :
  cancelled_passes (cancel s)
  = cancelled_passes s ++ elements (cancellablePasses s).
Proof.
  rewrite cancel_unfold. unfold cancelled_passes.
  cbn [calls]. rewrite !omap_app, omap_QueryPass_cancel.
  simpl. by rewrite app_nil_r.
Qed.

Lemma cancelled_passes_interrupt w stage s :
  cancelled_passes (interrupt w stage s)
  = cancelled_passes s
    ++ (if cancelArrives w stage then elements (cancellablePasses s) else []).
Proof.
  unfold interrupt. destruct (cancelArrives w stage).
  - apply cancelled_passes_cancel.
  - by rewrite app_nil_r.
Qed.

Lemma cancelled_passes_set_ctx c s :
  cancelled_passes (set_ctx c s) = cancelled_passes s.
Proof. done. Qed.

Lemma cancelled_passes_set_cancellablePasses ps s :
  cancelled_passes (set_cancellablePasses ps s) = cancelled_passes s.
Proof. done. Qed.

Lemma pipeline_call c s :
  pipeline (call c s) = pipeline s ++ (if is_cancel c then [] else [c]).
Proof.
  unfold pipeline, call. simpl. rewrite List.filter_app. simpl.
  by destruct (is_cancel c).
Qed.

Lemma pipeline_cancel s : pipeline (cancel s) = pipeline s.
Proof.
  rewrite cancel_unfold. unfold pipeline. simpl. rewrite !List.filter_app.
  simpl. rewrite app_nil_r.
  assert (List.filter (λ c, negb (is_cancel c))
            (QueryPass_cancel <$> elements (cancellablePasses s)) = []) as ->.
  { by induction (elements (cancellablePasses s)). }
  by rewrite app_nil_r.
Qed.

Lemma pipeline_interrupt w stage s : pipeline (interrupt w stage s) = pipeline s.
Proof.
  unfold interrupt. destruct (cancelArrives w stage); [|done].
  apply pipeline_cancel.
Qed.

Lemma pipeline_set_ctx c s : pipeline (set_ctx c s) = pipeline s.
Proof. done. Qed.

Lemma pipeline_set_cancellablePasses ps s :
  pipeline (set_cancellablePasses ps s) = pipeline s.
Proof. done. Qed.

Lemma manager_cancels_call c s :
  manager_cancels (call c s)
  = manager_cancels s
    + match c with
      | ClangInvocationManager_cancel
      | LibFuzzerInvocationManager_cancel => 1
      | _ => 0
      end.
Proof.
  unfold manager_cancels, call. simpl. rewrite List.filter_app, length_app.
  by destruct c.
Qed.

Lemma manager_cancels_cancel s :
  manager_cancels (cancel s) = manager_cancels s + 2.
Proof.
  rewrite cancel_unfold. unfold manager_cancels. simpl.
  rewrite !List.filter_app, !length_app.
  assert (List.filter
            (λ c, match c with
                  | ClangInvocationManager_cancel
                  | LibFuzzerInvocationManager_cancel => true
                  | _ => false
                  end)
            (QueryPass_cancel <$> elements (cancellablePasses s)) = []) as ->.
  { by induction (elements (cancellablePasses s)). }
  simpl. lia.
Qed.

Lemma manager_cancels_interrupt w stage s :
  manager_cancels (interrupt w stage s)
  = manager_cancels s + (if cancelArrives w stage then 2 else 0).
Proof.
  unfold interrupt. destruct (cancelArrives w stage).
  - apply manager_cancels_cancel.
  - lia.
Qed.

Lemma manager_cancels_set_ctx c s :
  manager_cancels (set_ctx c s) = manager_cancels s.
Proof. done. Qed.

Lemma manager_cancels_set_cancellablePasses ps s :
  manager_cancels (set_cancellablePasses ps s) = manager_cancels s.
Proof. done. Qed.

Lemma ctx_call c s : ctx (call c s) = ctx s.
Proof. done. Qed.

Lemma ctx_set_ctx c s : ctx (set_ctx c s) = c.
Proof. done. Qed.

Lemma ctx_set_cancellablePasses ps s :
  ctx (set_cancellablePasses ps s) = ctx s.
Proof. done. Qed.

Create Rewrite HintDb solver_trace.
#[local] Hint Rewrite
  cancelled_cancel cancellablePasses_cancel ctx_cancel
  cancelled_interrupt cancellablePasses_interrupt ctx_interrupt
  cancelled_call cancelled_set_ctx cancelled_set_cancellablePasses
  cancellablePasses_set_cancellablePasses cancellablePasses_call
  cancellablePasses_set_ctx
  ctx_call ctx_set_ctx ctx_set_cancellablePasses
  pipeline_call pipeline_interrupt pipeline_set_ctx
  pipeline_set_cancellablePasses
  cancelled_passes_call cancelled_passes_interrupt cancelled_passes_set_ctx
  cancelled_passes_set_cancellablePasses
  manager_cancels_call manager_cancels_interrupt manager_cancels_set_ctx
  manager_cancels_set_cancellablePasses
  invocations_interrupt invocations_call invocations_set_cancellablePasses
  invocations_set_ctx
  : solver_trace.

(** ** The context during the sort check *)

(** The backend's predicate writes nothing when it accepts. *)
Lemma sortsAreSupported_predicate_accept s ctx :
  (sortsAreSupported_predicate s ctx).1 = true →
  (sortsAreSupported_predicate s ctx).2 = ctx.
Proof.
  unfold sortsAreSupported_predicate.
  destruct (getKind s); simpl; try done. by case_decide.
Qed.

(** Replaying a predicate that leaves the environment alone when it
    accepts: either nothing was written, or the log ends with the one
    rejected node and the environment is what the predicate made of the
    initial one at that node. *)
Lemma replay_silent_accept {Env}
    (pred : Z3SortHandle → Env → bool * Env) (env env' : Env) l b :
  (∀ s e, (pred s e).1 = true → (pred s e).2 = e) →
  replay pred env l = (b, env', []) →
  if b then env' = env
  else ∃ l1 n, l = l1 ++ [n] ∧ pred (getSort n) env = (false, env').
Proof.
  intros Hsilent. revert b. induction l as [|m l IH]; intros b; simpl.
  - by intros [= <- <-].
  - destruct (pred (getSort m) env) as [[] e] eqn:Hm.
    + pose proof (Hsilent (getSort m) env) as He. rewrite Hm in He.
      simpl in He. rewrite He by done. intros Hrep.
      specialize (IH _ Hrep). destruct b; [done|].
      destruct IH as (l1 & n & -> & Hn). by exists (m :: l1), n.
    + intros [= <- <- ->]. by exists [], m.
Qed.

(** [sortsAreSupported], with what it does to the context: nothing when the
    check passes; when it fails, what the predicate writes for one
    reachable term of unsupported sort. *)
Lemma sortsAreSupported_full_spec w s q :
  ∃ b ctx',
    sortsAreSupported w s q
    = Some (b,
            set_cancellablePasses
              (({[ sortPassPtr w ]} ∪ cancellablePasses s) ∖ {[ sortPassPtr w ]})
              (interrupt w CheckSorts
                 (set_ctx ctx'
                    (call (SortConformanceCheckPass_run (sortPassPtr w))
                       (set_cancellablePasses
                          ({[ sortPassPtr w ]} ∪ cancellablePasses s) s)))),
            q)
    ∧ (b = true ↔ ∀ n, reachable q n → supported_sort (getSort n) = true)
    ∧ (b = true → ctx' = ctx s)
    ∧ (b = false →
       ∃ n, reachable q n ∧ supported_sort (getSort n) = false
            ∧ ctx' = (sortsAreSupported_predicate (getSort n) (ctx s)).2).
Proof.
  unfold sortsAreSupported.
  destruct (run_spec q supported_sort
              (newSortConformanceCheckPass sortsAreSupported_predicate)
              (ctx s))
    as (st & Hrun & Hpost).
  { intros. apply sortsAreSupported_predicate_answer. }
  destruct (run_replay
              (newSortConformanceCheckPass sortsAreSupported_predicate)
              q (ctx s))
    as (st' & Hrun' & _ & Hrep).
  rewrite Hrun in Hrun'. injection Hrun' as <-.
  simpl. rewrite Hrun. simpl.
  exists (predicateAlwaysHeld (rs_pass st)), (rs_env st).
  destruct Hpost as [Hq _ Hreach Hheld _]. rewrite Hq.
  split; [|split; [done|]].
  { do 3 f_equal. by rewrite cancellablePasses_interrupt. }
  apply replay_silent_accept in Hrep;
    [|apply sortsAreSupported_predicate_accept].
  unfold predicateAlwaysHeld. simpl in Hrep.
  destruct (predicateHeld (rs_pass st)); split; try done.
  intros _. destruct Hrep as (l1 & n & Hl & Hn). exists n.
  assert (reachable q n) as Hrn.
  { apply Hreach. rewrite Hl. apply elem_of_app. right. apply list_elem_of_here. }
  split; [done|]. rewrite <- sortsAreSupported_predicate_answer with (ctx := ctx s).
  by rewrite Hn.
Qed.

(** ** The trace of a solve call *)

Ltac solver_trace :=
  autorewrite with solver_trace;
  cbn [orb andb negb Nat.b2n invokes is_cancel app length].

(** A solve call that does not ask for a model, in full: its answer, the
    calls it makes in order, what it writes, what it does to the flag and
    to the registry, and the cancellations that [cancel()] calls arriving
    meanwhile hand out. *)
Lemma fuzz_trace_spec bits w s q info :
  ∃ b ctx1 s',
    (b = true ↔ ∀ n, reachable q n → supported_sort (getSort n) = true)
    ∧ (b = true → ctx1 = ctx s)
    ∧ (b = false →
       ∃ n, reachable q n ∧ supported_sort (getSort n) = false
            ∧ ctx1 = (sortsAreSupported_predicate (getSort n) (ctx s)).2)
    ∧ fuzz bits w s q false info = Some (Some (mkResponse (verdict w s b)), s')
    ∧ pipeline s'
      = pipeline s
        ++ take (pipeline_length w s b)
                (expected_pipeline bits w (getVerbosity (ctx s)) info)
    ∧ ctx s'
      = (if negb b then
           IF_VERB ctx1 (writeDebug ("(unsupported sorts)"%string +:+ nl))
         else if stops_at_checkpoint w s then
           IF_VERB ctx1 (writeDebug ("("%string +:+ getName
                                     +:+ " cancelled)"%string +:+ nl))
         else ctx1)
    ∧ cancelled s'
      = cancelled s || cancelArrives w CheckSorts
        || runs_builder w s b && cancelArrives w BuildProgram
        || runs_compile w s b && cancelArrives w Compile
        || runs_fuzz w s b
           && (cancelArrives w ConfigureFuzzer || cancelArrives w Fuzz)
    ∧ cancellablePasses s'
      = (if runs_builder w s b then registry_after_BuildProgram w s
         else registry_after_CheckSorts w s)
    ∧ cancelled_passes s'
      = cancelled_passes s
        ++ (if cancelArrives w CheckSorts
            then elements ({[ sortPassPtr w ]} ∪ cancellablePasses s) else [])
        ++ (if runs_builder w s b && cancelArrives w BuildProgram
            then elements ({[ builderPassPtr w ]}
                           ∪ registry_after_CheckSorts w s) else [])
        ++ (if runs_compile w s b && cancelArrives w Compile
            then elements (registry_after_BuildProgram w s) else [])
        ++ (if runs_fuzz w s b && cancelArrives w ConfigureFuzzer
            then elements (registry_after_BuildProgram w s) else [])
        ++ (if runs_fuzz w s b && cancelArrives w Fuzz
            then elements (registry_after_BuildProgram w s) else [])
    ∧ manager_cancels s'
      = manager_cancels s
        + 2 * (Nat.b2n (cancelArrives w CheckSorts)
               + Nat.b2n (runs_builder w s b && cancelArrives w BuildProgram)
               + Nat.b2n (runs_compile w s b && cancelArrives w Compile)
               + Nat.b2n (runs_fuzz w s b && cancelArrives w ConfigureFuzzer)
               + Nat.b2n (runs_fuzz w s b && cancelArrives w Fuzz)).
Proof.
  destruct (sortsAreSupported_full_spec w s q)
    as (b & ctx1 & Hsorts & Hb & Hpass & Hfail).
  exists b, ctx1. unfold fuzz. rewrite Hsorts. clear Hsorts.
  cbn [mbind option_bind].
  unfold verdict, pipeline_length, stops_at_checkpoint, runs_fuzz,
    runs_compile, runs_builder, flag_after_Compile, flag_after_BuildProgram,
    flag_after_CheckSorts, registry_after_BuildProgram,
    registry_after_CheckSorts.
  (* the solver after the sort check *)
  match goal with |- context [CHECK_CANCELLED ?S _] => set (s1 := S) end.
  assert (cancelled s1 = cancelled s || cancelArrives w CheckSorts
          ∧ cancellablePasses s1
            = ({[ sortPassPtr w ]} ∪ cancellablePasses s) ∖ {[ sortPassPtr w ]}
          ∧ ctx s1 = ctx1
          ∧ pipeline s1
            = pipeline s ++ [SortConformanceCheckPass_run (sortPassPtr w)]
          ∧ cancelled_passes s1
            = cancelled_passes s
              ++ (if cancelArrives w CheckSorts
                  then elements ({[ sortPassPtr w ]} ∪ cancellablePasses s)
                  else [])
          ∧ manager_cancels s1
            = manager_cancels s
              + (if cancelArrives w CheckSorts then 2 else 0))
    as (Hc1 & Hr1 & Hx1 & Hp1 & Hcp1 & Hm1).
  { subst s1. solver_trace. rewrite ?app_nil_r, ?Nat.add_0_r. done. }
  clearbody s1.
  destruct b; cbn [negb andb].
  2:{ eexists. do 3 (split; [done|]). split; [reflexivity|]. 
      solver_trace. rewrite Hc1, Hr1, Hx1, Hp1, Hcp1, Hm1.
      cbn [take Nat.add Nat.mul]. rewrite ?orb_false_r, ?app_nil_r.
      repeat split; try done. destruct (cancelArrives w CheckSorts); simpl; lia. }
  specialize (Hpass eq_refl). subst ctx1. clear Hfail.
  unfold CHECK_CANCELLED at 1. rewrite Hc1.
  destruct (cancelled s) eqn:Hs, (cancelArrives w CheckSorts) eqn:A1;
    cbn [negb andb orb] in *.
  1-3: (eexists; do 3 (split; [done|]); split; [reflexivity|];
        solver_trace; rewrite Hc1, Hr1, Hx1, Hp1, Hcp1, Hm1;
        cbn [take Nat.add Nat.mul Nat.b2n];
        rewrite ?orb_false_r, ?app_nil_r; repeat split; done).
  (* the solver after the builder pass *)
  match goal with |- context [CHECK_CANCELLED ?S _] => set (s2 := S) end.
  assert (cancelled s2 = cancelArrives w BuildProgram
          ∧ cancellablePasses s2
            = {[ builderPassPtr w ]}
              ∪ ({[ builderPassPtr w ]}
                 ∪ ({[ sortPassPtr w ]} ∪ cancellablePasses s)
                   ∖ {[ sortPassPtr w ]})
          ∧ ctx s2 = ctx s
          ∧ pipeline s2
            = pipeline s ++ [SortConformanceCheckPass_run (sortPassPtr w);
                             CXXProgramBuilderPass_run (builderPassPtr w)]
          ∧ cancelled_passes s2
            = cancelled_passes s
              ++ (if cancelArrives w BuildProgram
                  then elements ({[ builderPassPtr w ]}
                                 ∪ ({[ sortPassPtr w ]} ∪ cancellablePasses s)
                                   ∖ {[ sortPassPtr w ]})
                  else [])
          ∧ manager_cancels s2
            = manager_cancels s
              + (if cancelArrives w BuildProgram then 2 else 0))
    as (Hc2 & Hr2 & Hx2 & Hp2 & Hcp2 & Hm2).
  { subst s2. solver_trace. rewrite Hc1, Hr1, Hx1, Hp1, Hcp1, Hm1.
    rewrite ?app_nil_r, ?Nat.add_0_r, <- ?app_assoc. done. }
  clearbody s2. clear s1 Hc1 Hr1 Hx1 Hp1 Hcp1 Hm1.
  unfold CHECK_CANCELLED at 1. rewrite Hc2.
  destruct (cancelArrives w BuildProgram) eqn:A2; cbn [negb andb orb] in *.
  { eexists. do 3 (split; [done|]). split; [reflexivity|].
    solver_trace. rewrite Hc2, Hr2, Hx2, Hp2, Hcp2, Hm2.
    cbn [take Nat.add Nat.mul Nat.b2n].
    rewrite ?orb_false_r, ?app_nil_r. repeat split; done. }
  (* the solver after the compilation *)
  rewrite Hx2.
  match goal with |- context [interrupt w Compile (call ?c s2)] =>
    set (s3 := interrupt w Compile (call c s2))
  end.
  assert (cancelled s3 = cancelArrives w Compile
          ∧ cancellablePasses s3 = cancellablePasses s2
          ∧ ctx s3 = ctx s
          ∧ pipeline s3
            = pipeline s
              ++ take 3 (expected_pipeline bits w (getVerbosity (ctx s)) info)
          ∧ cancelled_passes s3
            = cancelled_passes s
              ++ (if cancelArrives w Compile
                  then elements (cancellablePasses s2) else [])
          ∧ manager_cancels s3
            = manager_cancels s + (if cancelArrives w Compile then 2 else 0))
    as (Hc3 & Hr3 & Hx3 & Hp3 & Hcp3 & Hm3).
  { subst s3. solver_trace. rewrite Hc2, Hx2, Hp2, Hcp2, Hm2.
    rewrite ?app_nil_r, ?Nat.add_0_r, <- ?app_assoc. done. }
  clearbody s3. rewrite Hr2 in Hr3, Hcp3.
  destruct (compileSuccess w) eqn:Hcompile; cbn [negb andb orb] in *.
  2:{ eexists. do 3 (split; [done|]). split; [reflexivity|].
      rewrite Hc3, Hr3, Hx3, Hp3, Hcp3, Hm3.
      cbn [Nat.add Nat.mul Nat.b2n].
      rewrite ?orb_false_r, ?app_nil_r.
      destruct (cancelArrives w Compile); repeat split; done. }
  unfold CHECK_CANCELLED at 1. rewrite Hc3.
  destruct (cancelArrives w Compile) eqn:A3; cbn [negb andb orb] in *.
  { eexists. do 3 (split; [done|]). split; [reflexivity|].
    solver_trace. rewrite Hc3, Hr3, Hx3, Hp3, Hcp3, Hm3.
    cbn [Nat.add Nat.mul Nat.b2n].
    rewrite ?orb_false_r, ?app_nil_r. repeat split; done. }
  (* the solver after the fuzzing *)
  eexists. do 3 (split; [done|]). split.
  { destruct (outcome w); reflexivity. }
  solver_trace. rewrite Hc3, Hr3, Hx3, Hp3, Hcp3, Hm3.
  cbn [Nat.add Nat.mul Nat.b2n].
  rewrite ?orb_false_r, ?app_nil_r, <- ?app_assoc.
  destruct (cancelArrives w ConfigureFuzzer), (cancelArrives w Fuzz);
    repeat split; try done; rewrite ?app_nil_r; simpl; try done; lia.
Qed.

(** ** What the predicate and the gate write *)

Lemma IF_VERB_quiet ctx action : getVerbosity ctx = 0 → IF_VERB ctx action = ctx.
Proof. intros H. unfold IF_VERB. rewrite decide_False; [done|lia]. Qed.

Lemma IF_VERB_verbose ctx action :
  0 < getVerbosity ctx → IF_VERB ctx action = action ctx.
Proof. intros H. unfold IF_VERB. by rewrite decide_True. Qed.

(** The backend's predicate only ever writes to the warning stream, one
    line when it rejects in a verbose context and nothing otherwise. *)
Lemma sortsAreSupported_predicate_streams s ctx :
  getVerbosity (sortsAreSupported_predicate s ctx).2 = getVerbosity ctx
  ∧ errorStream (sortsAreSupported_predicate s ctx).2 = errorStream ctx
  ∧ debugStream (sortsAreSupported_predicate s ctx).2 = debugStream ctx
  ∧ (getVerbosity ctx = 0 → (sortsAreSupported_predicate s ctx).2 = ctx)
  ∧ ((sortsAreSupported_predicate s ctx).1 = false → 0 < getVerbosity ctx →
     length (warningStream (sortsAreSupported_predicate s ctx).2)
     = S (length (warningStream ctx))).
Proof.
  unfold sortsAreSupported_predicate, IF_VERB.
  destruct (getKind s); simpl; repeat case_decide; simpl;
    repeat split; try done; try lia;
    intros; rewrite ?length_app; simpl; lia.
Qed.

(** ** [cancel()] *)

(** X6.  [cancel()] sets the flag and leaves the registry and the context
    as they are.  It calls [cancel()] on every registered pass exactly once
    and on no other pass, then on the Clang invocation manager, then on the
    LibFuzzer invocation manager, whether or not anything is running.  A
    second [cancel()] does the same again and changes nothing else. *)
Theorem cancel_reaches_every_registered_pass (s : CXXFuzzingSolverImpl) :
  cancelled (cancel s) = true
  ∧ cancellablePasses (cancel s) = cancellablePasses s
  ∧ ctx (cancel s) = ctx s
  ∧ pipeline (cancel s) = pipeline s
  ∧ (∃ passes,
       calls (cancel s)
       = calls s ++ (QueryPass_cancel <$> passes)
                 ++ [ClangInvocationManager_cancel;
                     LibFuzzerInvocationManager_cancel]
       ∧ NoDup passes
       ∧ (∀ p, p ∈ passes ↔ p ∈ cancellablePasses s)
       ∧ calls (cancel (cancel s))
         = calls (cancel s) ++ (QueryPass_cancel <$> passes)
                            ++ [ClangInvocationManager_cancel;
                                LibFuzzerInvocationManager_cancel])
  ∧ cancelled (cancel (cancel s)) = true
  ∧ cancellablePasses (cancel (cancel s)) = cancellablePasses s
  ∧ ctx (cancel (cancel s)) = ctx s.
Proof.
  rewrite cancelled_cancel, !cancellablePasses_cancel, !ctx_cancel,
    pipeline_cancel.
  do 4 (split; [done|]). split; [|by rewrite cancelled_cancel].
  exists (elements (cancellablePasses s)).
  split; [by rewrite cancel_unfold|]. split; [apply NoDup_elements|].
  split; [intros p; apply elem_of_elements|].
  by rewrite (cancel_unfold (cancel s)), cancellablePasses_cancel.
Qed.

(** ** [sortsAreSupported] *)

(** X7.  [sortsAreSupported] runs the pass once and leaves the query as it
    is.  The pass is in the registry exactly while it runs: a [cancel()]
    that arrives meanwhile calls [cancel()] on it and sets the flag, and
    afterwards the pass is out of the registry, which otherwise is as it
    was.  Without a [cancel()] the flag stays as it was and no pass is
    cancelled. *)
Theorem sort_pass_registered_while_running
    (w : World) (s : CXXFuzzingSolverImpl) (q : Query) :
  ∃ b s' new,
    sortsAreSupported w s q = Some (b, s', q)
    ∧ pipeline s' = pipeline s ++ [SortConformanceCheckPass_run (sortPassPtr w)]
    ∧ cancellablePasses s' = cancellablePasses s ∖ {[ sortPassPtr w ]}
    ∧ cancelled s' = cancelled s || cancelArrives w CheckSorts
    ∧ cancelled_passes s' = cancelled_passes s ++ new
    ∧ (cancelArrives w CheckSorts = true → sortPassPtr w ∈ new)
    ∧ (cancelArrives w CheckSorts = false → new = []).
Proof.
  destruct (sortsAreSupported_full_spec w s q) as (b & ctx1 & Hsorts & _).
  eexists b, _,
    (if cancelArrives w CheckSorts
     then elements ({[ sortPassPtr w ]} ∪ cancellablePasses s) else []).
  split; [exact Hsorts|].
  autorewrite with solver_trace. simpl. rewrite !app_nil_r.
  split; [done|]. split.
  { apply set_eq. intros p.
    rewrite !elem_of_difference, elem_of_union, elem_of_singleton. tauto. }
  split; [done|]. split; [reflexivity|].
  destruct (cancelArrives w CheckSorts); split; try done.
  intros _. apply elem_of_elements, elem_of_union. left.
  by apply elem_of_singleton.
Qed.

(** X8.  The sort check writes at most one diagnostic.  When it passes, the
    context is as it was.  When it fails, the context is what the predicate
    made of the original context at one reachable term of unsupported sort:
    one more line on the warning stream in a verbose context, and no change
    at all at verbosity 0.  The error stream, the debug stream and the
    verbosity are never touched. *)
Theorem sort_check_writes_at_most_one_warning
    (w : World) (s : CXXFuzzingSolverImpl) (q : Query) :
  ∃ b s',
    sortsAreSupported w s q = Some (b, s', q)
    ∧ (b = true → ctx s' = ctx s)
    ∧ (b = false →
       ∃ n, reachable q n ∧ supported_sort (getSort n) = false
            ∧ ctx s' = (sortsAreSupported_predicate (getSort n) (ctx s)).2)
    ∧ (b = false → 0 < getVerbosity (ctx s) →
       length (warningStream (ctx s')) = S (length (warningStream (ctx s))))
    ∧ (getVerbosity (ctx s) = 0 → ctx s' = ctx s)
    ∧ getVerbosity (ctx s') = getVerbosity (ctx s)
    ∧ errorStream (ctx s') = errorStream (ctx s)
    ∧ debugStream (ctx s') = debugStream (ctx s).
Proof.
  destruct (sortsAreSupported_full_spec w s q)
    as (b & ctx1 & Hsorts & _ & Hpass & Hfail).
  eexists b, _. split; [exact Hsorts|].
  autorewrite with solver_trace.
  destruct b.
  - rewrite (Hpass eq_refl). by repeat split.
  - destruct (Hfail eq_refl) as (n & Hn & Hun & ->).
    destruct (sortsAreSupported_predicate_streams (getSort n) (ctx s))
      as (Hv & He & Hd & Hquiet & Hwarn).
    split; [done|]. split; [intros _; by exists n|].
    split; [|by repeat split].
    intros _ Hverbose. apply Hwarn; [|done].
    by rewrite sortsAreSupported_predicate_answer.
Qed.

(** ** The solve call, stage by stage *)

(** The calls of the pipeline that a call gets to make are 1, 2, 3 or all
    6 of them. *)
Lemma pipeline_length_cases w s b :
  pipeline_length w s b = 1 ∨ pipeline_length w s b = 2
  ∨ pipeline_length w s b = 3 ∨ pipeline_length w s b = 6.
Proof.
  unfold pipeline_length, runs_fuzz, runs_compile, runs_builder.
  destruct b, (flag_after_CheckSorts w s), (flag_after_BuildProgram w s),
    (compileSuccess w), (flag_after_Compile w s); simpl; auto.
Qed.

Lemma verdict_SAT w s b :
  verdict w s b = SolverResponse.SAT
  ↔ b = true ∧ cancelled s = false ∧ cancelArrives w CheckSorts = false
    ∧ cancelArrives w BuildProgram = false ∧ cancelArrives w Compile = false
    ∧ compileSuccess w = true ∧ outcome w = LibFuzzerResponse.TARGET_FOUND.
Proof.
  unfold verdict, runs_fuzz, runs_compile, runs_builder, flag_after_Compile,
    flag_after_BuildProgram, flag_after_CheckSorts.
  destruct b, (cancelled s), (cancelArrives w CheckSorts),
    (cancelArrives w BuildProgram), (cancelArrives w Compile),
    (compileSuccess w), (outcome w); simpl; split;
    try done; intros (? & ? & ? & ? & ? & ? & ?); done.
Qed.

(** X9.  When some reachable term has an unsupported sort, a solve call that
    does not ask for a model answers UNKNOWN after the sort check: the run
    of the sort-check pass is the only call of the pipeline it makes.  In a
    verbose context it adds the line [(unsupported sorts)] to the debug
    stream; at verbosity 0 it leaves the context as it was. *)
Theorem unsupported_sorts_give_UNKNOWN
    (bits : N) (w : World) (s : CXXFuzzingSolverImpl) (q : Query)
    (info : FuzzingAnalysisInfo) (n : Z3ASTHandle) :
  reachable q n → supported_sort (getSort n) = false →
  ∃ s',
    fuzz bits w s q false info
    = Some (Some (mkResponse SolverResponse.UNKNOWN), s')
    ∧ pipeline s' = pipeline s ++ [SortConformanceCheckPass_run (sortPassPtr w)]
    ∧ (0 < getVerbosity (ctx s) →
       debugStream (ctx s')
       = debugStream (ctx s) ++ ["(unsupported sorts)"%string +:+ nl])
    ∧ (getVerbosity (ctx s) = 0 → ctx s' = ctx s).
Proof.
  intros Hn Hun.
  destruct (fuzz_trace_spec bits w s q info)
    as (b & ctx1 & s' & Hb & _ & Hfail & Hfuzz & Hpipe & Hctx & _).
  assert (b = false) as ->.
  { destruct b; [|done]. destruct Hb as [Hb _].
    by rewrite (Hb eq_refl n Hn) in Hun. }
  destruct (Hfail eq_refl) as (m & _ & _ & ->).
  destruct (sortsAreSupported_predicate_streams (getSort m) (ctx s))
    as (Hv & _ & Hd & Hquiet & _).
  exists s'. split; [exact Hfuzz|]. split; [exact Hpipe|].
  rewrite Hctx. simpl. split.
  - intros Hverbose. rewrite IF_VERB_verbose by by rewrite Hv.
    simpl. by rewrite Hd.
  - intros Hq. rewrite IF_VERB_quiet by by rewrite Hv. by apply Hquiet.
Qed.

(** At a concrete input: the query with a 65-bit variable, in a
    verbose context. *)
Lemma unsupported_sorts_give_UNKNOWN_witness :
  ∃ s',
    fuzz 32 (world never true LibFuzzerResponse.TARGET_FOUND)
         (newCXXFuzzingSolverImpl ctx_verbose) query_wide false info_1_7_16
    = Some (Some (mkResponse SolverResponse.UNKNOWN), s')
    ∧ pipeline s' = [SortConformanceCheckPass_run 1]
    ∧ debugStream (ctx s') = ["(unsupported sorts)"%string +:+ nl].
Proof.
  assert (reachable query_wide wide) as Hwide.
  { apply reachable_kid with parent_wide.
    - apply reachable_constraint, list_elem_of_here.
    - apply list_elem_of_here. }
  destruct (unsupported_sorts_give_UNKNOWN 32
              (world never true LibFuzzerResponse.TARGET_FOUND)
              (newCXXFuzzingSolverImpl ctx_verbose) query_wide info_1_7_16
              wide Hwide eq_refl)
    as (s' & Hfuzz & Hpipe & Hdebug & _).
  exists s'. split; [exact Hfuzz|]. split; [exact Hpipe|].
  apply Hdebug. simpl. lia.
Defined.

(** X10.  A solve call answers SAT exactly when it did not ask for a model,
    every reachable term has a supported sort, the flag was not set before
    the call, no [cancel()] arrived during the sort check, the builder pass
    or the compilation, the compilation succeeded, and the fuzzer found the
    target. *)
Theorem SAT_exactly_after_the_whole_pipeline
    (bits : N) (w : World) (s : CXXFuzzingSolverImpl) (q : Query)
    (produceModel : bool) (info : FuzzingAnalysisInfo) :
  ∃ r s',
    fuzz bits w s q produceModel info = Some (r, s')
    ∧ (r = Some (mkResponse SolverResponse.SAT)
       ↔ produceModel = false
         ∧ (∀ n, reachable q n → supported_sort (getSort n) = true)
         ∧ cancelled s = false
         ∧ cancelArrives w CheckSorts = false
         ∧ cancelArrives w BuildProgram = false
         ∧ cancelArrives w Compile = false
         ∧ compileSuccess w = true
         ∧ outcome w = LibFuzzerResponse.TARGET_FOUND).
Proof.
  destruct produceModel.
  { rewrite fuzz_model_spec. eexists _, _. split; [done|].
    split; [done|]. by intros [? _]. }
  destruct (fuzz_spec bits w s q info) as (b & s' & new & Hb & Hfuzz & _).
  exists (Some (mkResponse (verdict w s b))), s'. split; [done|].
  split.
  - intros [= Hsat]. apply verdict_SAT in Hsat as (-> & Hrest).
    split; [done|]. split; [by apply Hb|done].
  - intros (_ & Hall & Hrest). do 2 f_equal. apply verdict_SAT.
    split; [by apply Hb|done].
Qed.

(** X11.  Cancellations aside, the calls a solve call makes are an initial
    part of one fixed sequence: the run of the sort-check pass, the run of
    the builder pass, the compilation, the two new directories (corpus,
    then artifacts) and the fuzzing, each with the arguments listed in
    [expected_pipeline].  The call makes none of them when it asks for a
    model and otherwise the first 1, 2, 3 or all 6; nothing is called out
    of order or twice, and SAT is only answered after all 6. *)
Theorem calls_follow_the_pipeline
    (bits : N) (w : World) (s : CXXFuzzingSolverImpl) (q : Query)
    (produceModel : bool) (info : FuzzingAnalysisInfo) :
  ∃ r s' n,
    fuzz bits w s q produceModel info = Some (r, s')
    ∧ pipeline s'
      = pipeline s
        ++ take n (expected_pipeline bits w (getVerbosity (ctx s)) info)
    ∧ (n = 0 ∨ n = 1 ∨ n = 2 ∨ n = 3 ∨ n = 6)
    ∧ (n = 0 ↔ produceModel = true)
    ∧ (r = Some (mkResponse SolverResponse.SAT) → n = 6).
Proof.
  destruct produceModel.
  { rewrite fuzz_model_spec. eexists _, _, 0. split; [done|].
    rewrite pipeline_set_ctx. simpl. rewrite app_nil_r.
    repeat split; auto; done. }
  destruct (fuzz_trace_spec bits w s q info)
    as (b & ctx1 & s' & _ & _ & _ & Hfuzz & Hpipe & _).
  exists (Some (mkResponse (verdict w s b))), s', (pipeline_length w s b).
  split; [done|]. split; [done|].
  pose proof (pipeline_length_cases w s b) as Hcases.
  split; [tauto|]. split.
  - split; [|done]. intros H0. rewrite H0 in Hcases.
    destruct Hcases as [|[|[|]]]; done.
  - intros [= Hsat]. revert Hsat. unfold verdict, pipeline_length.
    destruct (runs_fuzz w s b) eqn:Hrf; [|done]. intros _.
    unfold runs_fuzz in Hrf.
    destruct (runs_compile w s b) eqn:Hrc; [|done].
    unfold runs_compile in Hrc.
    by destruct (runs_builder w s b).
Qed.

Lemma pipeline_length_6 w s b :
  pipeline_length w s b = 6 → compileSuccess w = true.
Proof.
  unfold pipeline_length, runs_fuzz, runs_compile, runs_builder.
  destruct b, (flag_after_CheckSorts w s), (flag_after_BuildProgram w s),
    (compileSuccess w), (flag_after_Compile w s); simpl; done.
Qed.

(** Splitting the membership in a list that is written out. *)
Ltac in_list H :=
  repeat match type of H with
         | _ ∈ _ :: _ => apply elem_of_cons in H as [H|H]; [try discriminate H|]
         | _ ∈ [] => by apply elem_of_nil in H
         end.

(** The new calls of a solve call, cancellations aside: an initial part of
    the expected sequence, of length 0, 1, 2, 3 or 6, and of length 6 only
    after a successful compilation. *)
Lemma fuzz_new_pipeline bits w s q produceModel info :
  ∃ r s' n,
    fuzz bits w s q produceModel info = Some (r, s')
    ∧ pipeline s'
      = pipeline s
        ++ take n (expected_pipeline bits w (getVerbosity (ctx s)) info)
    ∧ (n = 0 ∨ n = 1 ∨ n = 2 ∨ n = 3 ∨ n = 6)
    ∧ (n = 6 → compileSuccess w = true).
Proof.
  destruct produceModel.
  { rewrite fuzz_model_spec. eexists _, _, 0. split; [done|].
    rewrite pipeline_set_ctx. simpl. rewrite app_nil_r.
    split; [done|]. split; [by left|done]. }
  destruct (fuzz_trace_spec bits w s q info)
    as (b & ctx1 & s' & _ & _ & _ & Hfuzz & Hpipe & _).
  exists (Some (mkResponse (verdict w s b))), s', (pipeline_length w s b).
  split; [done|]. split; [done|].
  pose proof (pipeline_length_cases w s b) as Hcases.
  split; [tauto|]. apply pipeline_length_6.
Qed.

(** X12.  The fuzzer is only ever pointed at what the same call compiled:
    whenever a solve call invokes LibFuzzer, the compilation of that call
    succeeded, the target binary is the output file that was given to
    Clang, comparison instrumentation is switched on exactly when Clang
    was given the TRACE_CMP coverage option, and the corpus and artifact
    directories are the two directories the call made before. *)
Theorem fuzzer_runs_what_was_compiled
    (bits : N) (w : World) (s : CXXFuzzingSolverImpl) (q : Query)
    (produceModel : bool) (info : FuzzingAnalysisInfo) :
  ∃ r s' new,
    fuzz bits w s q produceModel info = Some (r, s')
    ∧ pipeline s' = pipeline s ++ new
    ∧ ∀ lfo o e,
        LibFuzzerInvocationManager_fuzz lfo o e ∈ new →
        compileSuccess w = true
        ∧ (∃ prog src opts co ce,
             ClangInvocationManager_compile prog src (targetBinary lfo) opts
                                            co ce ∈ new
             ∧ (useCmp lfo = true ↔ ClangOptions.TRACE_CMP ∈ opts))
        ∧ WorkingDirectoryManager_makeNewDirectoryInDirectory "corpus" ∈ new
        ∧ WorkingDirectoryManager_makeNewDirectoryInDirectory "artifacts"
          ∈ new
        ∧ corpusDir lfo = makeNewDirectoryInDirectory w "corpus"
        ∧ artifactDir lfo = makeNewDirectoryInDirectory w "artifacts".
Proof.
  destruct (fuzz_new_pipeline bits w s q produceModel info)
    as (r & s' & n & Hfuzz & Hpipe & Hn & Hcompiled).
  exists r, s', (take n (expected_pipeline bits w (getVerbosity (ctx s)) info)).
  split; [done|]. split; [done|]. intros lfo o e Hin.
  unfold expected_pipeline in *.
  destruct Hn as [->|[->|[->|[->| ->]]]]; cbn [take] in Hin; in_list Hin.
  injection Hin as -> _ _. split; [by apply Hcompiled|]. split.
  - eexists _, _, _, _, _. split.
    + cbn [take targetBinary]. do 2 apply list_elem_of_further.
      apply list_elem_of_here.
    + cbn [useCmp]. apply bool_decide_eq_true.
  - cbn [take]. split; [|split; [|done]].
    + do 3 apply list_elem_of_further. apply list_elem_of_here.
    + do 4 apply list_elem_of_further. apply list_elem_of_here.
Qed.

(** X13.  In a quiet context (verbosity 0) the output of both tools is
    redirected to files of the working directory, [clang.stdout.txt] and
    [clang.stderr.txt] for the compilation and [libfuzzer.stdout.txt] and
    [libfuzzer.stderr.txt] for the fuzzing; at any other verbosity both
    file names are empty for both tools.  The verbosity that counts is the
    one the context had when the call began. *)
Theorem quiet_calls_redirect_tool_output
    (bits : N) (w : World) (s : CXXFuzzingSolverImpl) (q : Query)
    (produceModel : bool) (info : FuzzingAnalysisInfo) :
  ∃ r s' new,
    fuzz bits w s q produceModel info = Some (r, s')
    ∧ pipeline s' = pipeline s ++ new
    ∧ (∀ prog src out opts o e,
         ClangInvocationManager_compile prog src out opts o e ∈ new →
         (o, e)
         = if bool_decide (getVerbosity (ctx s) = 0)
           then (getPathToFileInDirectory w "clang.stdout.txt",
                 getPathToFileInDirectory w "clang.stderr.txt")
           else (""%string, ""%string))
    ∧ (∀ lfo o e,
         LibFuzzerInvocationManager_fuzz lfo o e ∈ new →
         (o, e)
         = if bool_decide (getVerbosity (ctx s) = 0)
           then (getPathToFileInDirectory w "libfuzzer.stdout.txt",
                 getPathToFileInDirectory w "libfuzzer.stderr.txt")
           else (""%string, ""%string)).
Proof.
  destruct (fuzz_new_pipeline bits w s q produceModel info)
    as (r & s' & n & Hfuzz & Hpipe & Hn & _).
  exists r, s', (take n (expected_pipeline bits w (getVerbosity (ctx s)) info)).
  split; [done|]. split; [done|].
  unfold expected_pipeline.
  split.
  - intros prog src out opts o e Hin.
    destruct Hn as [->|[->|[->|[->| ->]]]]; cbn [take] in Hin; in_list Hin;
      injection Hin as _ _ _ _ -> ->; by case_bool_decide.
  - intros lfo o e Hin.
    destruct Hn as [->|[->|[->|[->| ->]]]]; cbn [take] in Hin; in_list Hin;
      injection Hin as _ -> ->; by case_bool_decide.
Qed.

(** ** Cancellation during a solve call *)

(** X15.  A solve call cancels nothing by itself: when no [cancel()]
    arrives while it runs, the flag is as it was, no pass is cancelled, and
    neither invocation manager is cancelled. *)
Theorem nothing_is_cancelled_without_cancel
    (bits : N) (w : World) (s : CXXFuzzingSolverImpl) (q : Query)
    (produceModel : bool) (info : FuzzingAnalysisInfo) :
  (∀ stage, cancelArrives w stage = false) →
  ∃ r s',
    fuzz bits w s q produceModel info = Some (r, s')
    ∧ cancelled s' = cancelled s
    ∧ cancelled_passes s' = cancelled_passes s
    ∧ manager_cancels s' = manager_cancels s.
Proof.
  intros Hnever. destruct produceModel.
  { rewrite fuzz_model_spec. eexists _, _. split; [done|].
    by autorewrite with solver_trace. }
  destruct (fuzz_trace_spec bits w s q info)
    as (b & ctx1 & s' & _ & _ & _ & Hfuzz & _ & _ & Hflag & _ & Hpasses
        & Hmanagers).
  eexists _, s'. split; [exact Hfuzz|].
  rewrite Hflag, Hpasses, Hmanagers, !Hnever, !andb_false_r, !orb_false_r.
  simpl. rewrite !app_nil_r. repeat split; lia.
Qed.

(** At a concrete input: a complete solve call. *)
Lemma nothing_is_cancelled_without_cancel_witness :
  ∃ r s',
    fuzz 32 (world never true LibFuzzerResponse.TARGET_FOUND)
         (newCXXFuzzingSolverImpl ctx_quiet) query_shared false info_1_7_16
    = Some (r, s')
    ∧ cancelled s' = false
    ∧ cancelled_passes s' = []
    ∧ manager_cancels s' = 0.
Proof.
  exact (nothing_is_cancelled_without_cancel 32
           (world never true LibFuzzerResponse.TARGET_FOUND)
           (newCXXFuzzingSolverImpl ctx_quiet) query_shared false info_1_7_16
           (λ _, eq_refl)).
Defined.

(** X16.  A [cancel()] that arrives while the builder pass runs reaches
    it.  When every reachable term has a supported sort, the flag is not
    set and no [cancel()] arrives during the sort check, a [cancel()]
    during the builder pass calls [cancel()] once on the builder pass and
    on every pass that was registered before other than the sort-check
    pass, and on both invocation managers; the call then stops at the
    checkpoint after the builder pass with UNKNOWN, having run the two
    passes and nothing else, and in a verbose context it writes
    [(CXXFuzzingSolver cancelled)] to the debug stream. *)
Theorem cancel_during_builder_pass_reaches_it
    (bits : N) (w : World) (s : CXXFuzzingSolverImpl) (q : Query)
    (info : FuzzingAnalysisInfo) :
  (∀ n, reachable q n → supported_sort (getSort n) = true) →
  cancelled s = false →
  cancelArrives w CheckSorts = false →
  cancelArrives w BuildProgram = true →
  ∃ s' new,
    fuzz bits w s q false info
    = Some (Some (mkResponse SolverResponse.UNKNOWN), s')
    ∧ pipeline s'
      = pipeline s ++ [SortConformanceCheckPass_run (sortPassPtr w);
                       CXXProgramBuilderPass_run (builderPassPtr w)]
    ∧ cancelled s' = true
    ∧ cancelled_passes s' = cancelled_passes s ++ new
    ∧ NoDup new
    ∧ (∀ p, p ∈ new
            ↔ p = builderPassPtr w
              ∨ (p ∈ cancellablePasses s ∧ p ≠ sortPassPtr w))
    ∧ manager_cancels s' = manager_cancels s + 2
    ∧ (0 < getVerbosity (ctx s) →
       debugStream (ctx s')
       = debugStream (ctx s)
         ++ ["(CXXFuzzingSolver cancelled)"%string +:+ nl]).
Proof.
  intros Hall Hflag Hsort Hbuild.
  destruct (fuzz_trace_spec bits w s q info)
    as (b & ctx1 & s' & Hb & Hpass & _ & Hfuzz & Hpipe & Hctx & Hflag'
        & _ & Hpasses & Hmanagers).
  assert (b = true) as -> by by apply Hb.
  rewrite (Hpass eq_refl) in Hctx.
  revert Hfuzz Hpipe Hctx Hflag' Hpasses Hmanagers.
  unfold verdict, pipeline_length, stops_at_checkpoint, runs_fuzz,
    runs_compile, runs_builder, flag_after_Compile, flag_after_BuildProgram,
    flag_after_CheckSorts, registry_after_CheckSorts.
  rewrite Hflag, Hsort, Hbuild.
  cbn [orb andb negb Nat.b2n].
  intros Hfuzz Hpipe Hctx Hflag' Hpasses Hmanagers.
  exists s', (elements ({[ builderPassPtr w ]}
                        ∪ ({[ sortPassPtr w ]} ∪ cancellablePasses s)
                          ∖ {[ sortPassPtr w ]})).
  split; [exact Hfuzz|]. split; [exact Hpipe|].
  split; [exact Hflag'|].
  split; [by rewrite Hpasses; simpl; rewrite !app_nil_r|].
  split; [apply NoDup_elements|].
  split.
  { intros p.
    rewrite elem_of_elements, elem_of_union, elem_of_difference,
      elem_of_union, !elem_of_singleton.
    tauto. }
  split; [rewrite Hmanagers; simpl; lia|].
  intros Hverbose. rewrite Hctx. by rewrite IF_VERB_verbose.
Qed.

(** At a concrete input: [cancel()] arrives during the builder pass, in a
    verbose context. *)
Lemma cancel_during_builder_pass_reaches_it_witness :
  ∃ s' new,
    fuzz 32 (world (during BuildProgram) true LibFuzzerResponse.TARGET_FOUND)
         (newCXXFuzzingSolverImpl ctx_verbose) query_shared false info_1_7_16
    = Some (Some (mkResponse SolverResponse.UNKNOWN), s')
    ∧ pipeline s' = [SortConformanceCheckPass_run 1;
                     CXXProgramBuilderPass_run 2]
    ∧ cancelled s' = true
    ∧ cancelled_passes s' = new
    ∧ (2%N ∈ new)
    ∧ manager_cancels s' = 2
    ∧ debugStream (ctx s') = ["(CXXFuzzingSolver cancelled)"%string +:+ nl].
Proof.
  assert (∀ n, reachable query_shared n → supported_sort (getSort n) = true)
    as Hall.
  { assert (∀ n, n ∈ [parent1; parent2; shared; x; y] →
                 supported_sort (getSort n) = true) as Hlist.
    { intros n Hn. in_list Hn; subst n; vm_compute; reflexivity. }
    intros n Hn. apply Hlist. induction Hn as [c Hc|e k _ IH Hk].
    - cbn [query_shared constraints] in Hc. in_list Hc; subst c.
      + apply list_elem_of_here.
      + apply list_elem_of_further, list_elem_of_here.
    - in_list IH; subst e; cbn [getKids parent1 parent2 shared x y] in Hk;
        in_list Hk; subst k;
        repeat (first [apply list_elem_of_here | apply list_elem_of_further]). }
  destruct (cancel_during_builder_pass_reaches_it 32
              (world (during BuildProgram) true LibFuzzerResponse.TARGET_FOUND)
              (newCXXFuzzingSolverImpl ctx_verbose) query_shared info_1_7_16
              Hall eq_refl eq_refl eq_refl)
    as (s' & new & Hfuzz & Hpipe & Hflag & Hpasses & _ & Hnew & Hmanagers
        & Hdebug).
  exists s', new. split; [exact Hfuzz|]. split; [exact Hpipe|].
  split; [exact Hflag|]. split; [exact Hpasses|].
  split; [apply Hnew; by left|]. split; [exact Hmanagers|].
  apply Hdebug. simpl. lia.
Defined.

(** ** The registry across a solve call *)

(** X17.  A solve call touches the registry only at its own two passes: any
    other pass is registered afterwards exactly when it was registered
    before.  When the two passes are different objects and the call does
    not ask for a model, the sort-check pass is not registered
    afterwards. *)
Theorem other_passes_keep_their_registration
    (bits : N) (w : World) (s : CXXFuzzingSolverImpl) (q : Query)
    (produceModel : bool) (info : FuzzingAnalysisInfo) :
  ∃ r s',
    fuzz bits w s q produceModel info = Some (r, s')
    ∧ (∀ p, p ≠ sortPassPtr w → p ≠ builderPassPtr w →
            (p ∈ cancellablePasses s' ↔ p ∈ cancellablePasses s))
    ∧ (produceModel = true → cancellablePasses s' = cancellablePasses s)
    ∧ (produceModel = false → sortPassPtr w ≠ builderPassPtr w →
       sortPassPtr w ∉ cancellablePasses s').
Proof.
  destruct produceModel.
  { rewrite fuzz_model_spec. eexists _, _. split; [done|].
    autorewrite with solver_trace. by repeat split. }
  destruct (fuzz_trace_spec bits w s q info)
    as (b & ctx1 & s' & _ & _ & _ & Hfuzz & _ & _ & _ & Hreg & _).
  eexists _, s'. split; [exact Hfuzz|]. rewrite Hreg.
  unfold registry_after_BuildProgram, registry_after_CheckSorts.
  split; [|split; [done|]].
  - intros p Hsp Hbp.
    destruct (runs_builder w s b);
      rewrite ?elem_of_union, elem_of_difference, elem_of_union,
        ?elem_of_singleton; tauto.
  - intros _ Hne.
    destruct (runs_builder w s b);
      rewrite ?elem_of_union, elem_of_difference, elem_of_union,
        ?elem_of_singleton; tauto.
Qed.
